(** * A shallow embedding of the form state engine (virtualfoo/forms)

    The development follows the TypeScript sources:
    - [internalHooks.tsx]: [take], [dropRight], [nestedName],
      [addOnlyIfUnique] and the registration transactions [add]/[remove];
    - the form hook (useForm): [onFieldTypeOnly], [setValues],
      [setInitialValues], [setTouched], [resetTouched], [setAllToTouched],
      [reset], [revalidate], [clear], [submit];
    - the list hook (useList): its mount effect, [removeName],
      [generateNewName], [add], [addAt], [remove], [removeAll], [swap],
      [move], [createRows];
    - [OnFormReady.tsx]: [useFormReadyLoadable] and the effect of
      [OnFormReadyInner].

    One form is modelled at a time: every hook closes over a single
    [formId], so the atom family [$field(fieldId(formId, name))] is a map
    from field names to field states and [$form(formId)] is one record. *)

From Stdlib Require Import ZArith Ascii String List.
From stdpp Require Import base option list strings pretty gmap fin_maps.

Local Open Scope string_scope.
Local Open Scope list_scope.

(** ** Data model *)

(** [FieldType] of types.ts: the runtime tag of a cell. *)
Module FieldType.
Inductive t : Set := field | map | list.

#[global] Instance eq_dec : EqDecision t.
Proof. solve_decision. Defined.
End FieldType.

Record ValidationResult : Set := mkValidation {
  isValid : bool;
  isValidStrict : bool;
}.

(** JavaScript values as far as the hooks inspect them ([any] in the
    source).  An object is the list of its own enumerable string-keyed
    properties in [Object.entries] order; the keys of one object are
    pairwise distinct.  A string stands for the JavaScript string whose
    code units are its characters, one unit (below 256) per character. *)
#[warnings="-register-all"]
Inductive JsValue : Set :=
| JUndefined
| JNull
| JBool (b : bool)
| JNum (n : Z)
| JStr (s : string)
| JObj (props : list (string * JsValue)).

(** [Dict<T>]: an object used as a dictionary, in enumeration order. *)
Definition Dict (T : Type) : Type := list (string * T).

(** [FieldState] of types.ts.  The source keeps one flat record for the
    three variants and dispatches on [type]. *)
Record FieldState : Type := mkField {
  type : FieldType.t;
  children : list string;
  value : JsValue;
  initialValue : JsValue;
  touched : bool;
  touchedAfterSubmit : bool;
  validator : JsValue -> ValidationResult;
  validation : ValidationResult;
}.

(** Object spread with one overridden property: [{...state, p: x}]. *)
Definition with_type (t : FieldType.t) (st : FieldState) : FieldState :=
  mkField t (children st) (value st) (initialValue st) (touched st)
    (touchedAfterSubmit st) (validator st) (validation st).
Definition with_children (cs : list string) (st : FieldState) : FieldState :=
  mkField (type st) cs (value st) (initialValue st) (touched st)
    (touchedAfterSubmit st) (validator st) (validation st).
Definition with_value (v : JsValue) (st : FieldState) : FieldState :=
  mkField (type st) (children st) v (initialValue st) (touched st)
    (touchedAfterSubmit st) (validator st) (validation st).
Definition with_initialValue (v : JsValue) (st : FieldState) : FieldState :=
  mkField (type st) (children st) (value st) v (touched st)
    (touchedAfterSubmit st) (validator st) (validation st).
Definition with_touched (b : bool) (st : FieldState) : FieldState :=
  mkField (type st) (children st) (value st) (initialValue st) b
    (touchedAfterSubmit st) (validator st) (validation st).
Definition with_touchedAfterSubmit (b : bool) (st : FieldState) : FieldState :=
  mkField (type st) (children st) (value st) (initialValue st) (touched st)
    b (validator st) (validation st).
Definition with_validation (r : ValidationResult) (st : FieldState) : FieldState :=
  mkField (type st) (children st) (value st) (initialValue st) (touched st)
    (touchedAfterSubmit st) (validator st) r.

(** [FormState] of types.ts; [submission] holds the in-flight promise,
    identified here by a number. *)
Record FormState : Set := mkForm {
  fieldIds : list string;
  submission : option nat;
}.

Definition with_fieldIds (ids : list string) (st : FormState) : FormState :=
  mkForm ids (submission st).

(** Modelled from the spec: the default state of a cell, i.e. the
    [default] of the atom family [$field] in selectors.ts, which is not
    among the sources.  The spec has a cell created lazily as a plain
    [Field] with no children, untouched; its validator accepts. *)
Definition validResult : ValidationResult := mkValidation true true.
Definition fieldDefault : FieldState :=
  mkField FieldType.field [] JUndefined JUndefined false false
    (fun _ => validResult) validResult.

(** Modelled from the spec: the default of the atom [$form] in
    selectors.ts: no registered ids, no submission. *)
Definition formDefault : FormState := mkForm [] None.

(** The store: the cells of one form and its form-level node.  A cell
    that was never written reads as [fieldDefault]. *)
Record Store : Type := mkStore {
  fields : gmap string FieldState;
  form : FormState;
}.

Definition emptyStore : Store := mkStore ∅ formDefault.

(** [get($field(fieldId(formId, name)))] *)
Definition getField (s : Store) (name : string) : FieldState :=
  default fieldDefault (fields s !! name).

(** [set($field(fieldId(formId, name)), updater)] *)
Definition setField (name : string) (updater : FieldState -> FieldState)
    (s : Store) : Store :=
  mkStore (<[name := updater (getField s name)]> (fields s)) (form s).

(** [reset($field(fieldId(formId, name)))]: back to the default. *)
Definition resetField (name : string) (s : Store) : Store :=
  mkStore (delete name (fields s)) (form s).

(** [set($form(formId), updater)] *)
Definition setForm (updater : FormState -> FormState) (s : Store) : Store :=
  mkStore (fields s) (updater (form s)).

(** [reset($form(formId))] *)
Definition resetForm (s : Store) : Store := mkStore (fields s) formDefault.

(** ** Names: [String.prototype.split('.')] and [Array.prototype.join('.')] *)

Definition dot : ascii := "."%char.

Fixpoint split (s : string) : list string :=
  match s with
  | EmptyString => [EmptyString]
  | String c rest =>
      if Ascii.eqb c dot then EmptyString :: split rest
      else match split rest with
           | seg :: segs => String c seg :: segs
           | [] => [String c EmptyString]
           end
  end.

Fixpoint join (ns : list string) : string :=
  match ns with
  | [] => EmptyString
  | [x] => x
  | x :: rest => x +:+ "." +:+ join rest
  end.

Fixpoint dotfree (s : string) : bool :=
  match s with
  | EmptyString => true
  | String c rest => negb (Ascii.eqb c dot) && dotfree rest
  end.

(** ** internalHooks.tsx *)

(* const take = (n, xs) => xs.slice(0, n) *)
Definition take {T} (n : nat) (xs : list T) : list T := firstn n xs.
(* const dropRight = (n, xs) => xs.slice(0, xs.length - n); a negative end
   of [slice] counts from the end of the array *)
Definition dropRight {T} (n : nat) (xs : list T) : list T :=
  firstn (if decide (n <= length xs) then length xs - n
          else 2 * length xs - n) xs.

Definition nestedName (i : nat) (ns : list string) : string :=
  join (take i ns).

Definition addOnlyIfUnique (xs : list string) (x : string) : list string :=
  if decide (x ∈ xs) then xs else xs ++ [x].

Module Registration.

(** The body of the [for] loop of [add] at index [i]: the two [set] calls
    on the node [nestedName (i + 1) ns]. *)
Definition coerce (state : FieldState) : FieldState :=
  if decide (type state = FieldType.field)
  then with_type FieldType.map state
  else state.

Definition link (child : string) (state : FieldState) : FieldState :=
  if decide (type state ≠ FieldType.field)
  then with_children (addOnlyIfUnique (children state) child) state
  else state.

Definition addNode (ns : list string) (s : Store) (i : nat) : Store :=
  let currentNodeName := nestedName (i + 1) ns in
  setField currentNodeName (link (nestedName (i + 2) ns))
    (setField currentNodeName coerce s).

(** [for (let i = 0; i < ns.length - 1; i++) ...] *)
Definition addNodes (ns : list string) (s : Store) : Store :=
  foldl (addNode ns) s (seq 0 (length ns - 1)).

(** One round of [names.forEach]: [toAdd.push(ns[0])], then the loop. *)
Definition addName (acc : Store * list string) (name : string)
    : Store * list string :=
  let ns := split name in
  (addNodes ns acc.1, acc.2 ++ [hd EmptyString ns]).

(** The final [set($form(formId), ...)] of [add]. *)
Definition addToForm (toAdd : list string) (state : FormState) : FormState :=
  let ids := fieldIds state in
  with_fieldIds (ids ++ filter (fun id => id ∉ ids) toAdd) state.

Definition add (names : list string) (s : Store) : Store :=
  let r := foldl addName (s, []) names in
  setForm (addToForm r.2) r.1.

(** [remove]: drop the names from [fieldIds], then detach each dotted
    name from its parent's children. *)
Definition hasDot (name : string) : bool := negb (dotfree name).

Definition detach (s : Store) (name : string) : Store :=
  if hasDot name then
    let parent := join (dropRight 1 (split name)) in
    setField parent
      (fun state =>
         with_children (filter (fun id => id ≠ name) (children state)) state)
      s
  else s.

Definition remove (names : list string) (s : Store) : Store :=
  let s1 :=
    setForm (fun state =>
               with_fieldIds (filter (fun id => id ∉ names) (fieldIds state))
                 state) s in
  foldl detach s1 names.

End Registration.

(** [register(formId, [name])] and [unregister(formId, [name])]: the
    transactions called with the array of one name, as their signature
    [(names: string[])] asks. *)
Definition register (name : string) (s : Store) : Store :=
  Registration.add [name] s.
Definition unregister (name : string) (s : Store) : Store :=
  Registration.remove [name] s.


(** ** Failure *)

(** A call either returns or throws; a call that throws inside a
    transaction has written nothing.  [OutOfFuel] is the model's own: the
    recursion of the bulk setters follows the [map] cells of the store, so
    it is bounded by the store and not by its argument, and it is run on
    fuel.  [NotAString] marks an updater that stores [undefined] in
    [children], which [FieldState] types as [string[]]: the code returns
    from such a call, with children that this model cannot hold. *)
Inductive Failure : Set := TypeError | OutOfFuel | NotAString.

Inductive result (A : Type) : Type :=
| Ok (a : A)
| Fail (e : Failure).
Arguments Ok {A} a.
Arguments Fail {A} e.

#[global] Instance result_ret : MRet result := fun A a => Ok a.
#[global] Instance result_bind : MBind result := fun A B k r =>
  match r with
  | Ok a => k a
  | Fail e => Fail e
  end.

(** [xs.forEach(f)] where [f] writes to the store and may throw. *)
Fixpoint forEach {A} (f : A -> Store -> result Store) (xs : list A)
    (s : Store) : result Store :=
  match xs with
  | [] => Ok s
  | x :: rest => s' ← f x s; forEach f rest s'
  end.

(** What the callers hand to [add] and [remove]: an array of names, as
    the signature asks, or a single name, as [addFields], [removeFields]
    and the list hook's effect do ([registration.add(name)]). *)
Inductive Names : Set :=
| NamesArray (names : list string)
| NamesString (name : string).

(** [registration.add(arg)]: on a string [names.forEach] is not a
    function; the call throws and the transaction writes nothing. *)
Definition callAdd (arg : Names) (s : Store) : result Store :=
  match arg with
  | NamesArray names => Ok (Registration.add names s)
  | NamesString _ => Fail TypeError
  end.

(** [registration.remove(arg)]: on a string [new Set(names)] is the set of
    its characters and the [set] on the form is staged, then
    [names.forEach] throws and the transaction writes nothing. *)
Definition callRemove (arg : Names) (s : Store) : result Store :=
  match arg with
  | NamesArray names => Ok (Registration.remove names s)
  | NamesString _ => Fail TypeError
  end.

(** ** Objects *)

(** [Object.entries(value)]: [undefined] and [null] throw, a string
    exposes its characters under their indices, other primitives have no
    own properties. *)
Definition charEntries (s : string) : list (string * JsValue) :=
  imap (fun i c => (pretty i, JStr (String c EmptyString)))
    (list_ascii_of_string s).

Definition entries (v : JsValue) : result (list (string * JsValue)) :=
  match v with
  | JUndefined | JNull => Fail TypeError
  | JBool _ | JNum _ => Ok []
  | JStr s => Ok (charEntries s)
  | JObj props => Ok props
  end.

(** [acc[key] = v]: an existing property keeps its place, a new one is
    enumerated last (the keys written by the hooks contain a dot, so none
    of them is an array index). *)
Fixpoint assign {T} (acc : Dict T) (key : string) (v : T) : Dict T :=
  match acc with
  | [] => [(key, v)]
  | (k, w) :: rest =>
      if decide (k = key) then (k, v) :: rest else (k, w) :: assign rest key v
  end.

(** The [reduce] of [setValues] and [setInitialValues]:
    [Object.entries(value).reduce((acc, [k, v]) => { acc[`${id}.${k}`] = v;
    return acc }, {})]. *)
Definition qualify (id : string) (props : list (string * JsValue))
    : Dict JsValue :=
  foldl (fun acc kv => assign acc (id +:+ "." +:+ kv.1) kv.2) [] props.

(** ** The form hook (useForm) *)

Inductive IsValidProp : Set := isValidKey | isValidStrictKey.

(** [validation[isValidProp]] *)
Definition selectValid (p : IsValidProp) (r : ValidationResult) : bool :=
  match p with
  | isValidKey => isValid r
  | isValidStrictKey => isValidStrict r
  end.

Record SetValuesOptions : Type := mkOptions {
  validate : bool;
  equal : JsValue -> JsValue -> bool;
}.

Definition onFieldTypeOnly (f : FieldState -> FieldState)
    (state : FieldState) : FieldState :=
  if decide (type state = FieldType.field) then f state else state.

Definition alwaysFalse (_ _ : JsValue) : bool := false.

(** [{ validate = true, equal = alwaysFalse } = {}] *)
Definition defaultOptions : SetValuesOptions := mkOptions true alwaysFalse.

(** The bag handed to the submit callbacks.  The aggregates come from
    selectors ([$values], [$allValues], [$touched], [$initialValues],
    [$formDirty], [$fieldIds], [$formValidation]) that are not among the
    sources; only [validation] is inspected by [submit]. *)
Record Bag : Type := mkBag {
  bag_values : JsValue;
  bag_allValues : JsValue;
  bag_initialValues : JsValue;
  bag_touched : Dict bool;
  bag_fieldIds : list string;
  bag_validation : ValidationResult;
  bag_dirty : Dict JsValue;
  bag_args : list JsValue;
}.

(** What [submit] does to the outside: which callback it invokes, and
    with which bag. *)
Inductive Event : Type :=
| onSubmit (bag : Bag)
| onSubmitInvalid (bag : Bag).

Module Form.
Section useForm.

(** The selectors of selectors.ts read by the hook, taken as parameters. *)
Variable allFieldIds : Store -> list string.
Variable getBag : Store -> list JsValue -> Bag.
Variable createNamedValidation : string -> ValidationResult -> ValidationResult.

(** The [set(atom, (state) => ...)] of [setValues] on a plain field. *)
Definition assignValue (opts : SetValuesOptions) (v : JsValue)
    (state : FieldState) : FieldState :=
  if equal opts (value state) v then state
  else with_validation
         (if validate opts then validator state v else validation state)
         (with_value v state).

(** [updater] of [setValues]. *)
Fixpoint updater (fuel : nat) (opts : SetValuesOptions)
    (values : Dict JsValue) (s : Store) : result Store :=
  match fuel with
  | O => Fail OutOfFuel
  | S fuel' =>
      forEach
        (fun (entry : string * JsValue) s =>
           let id := entry.1 in
           let v := entry.2 in
           match type (getField s id) with
           | FieldType.field => Ok (setField id (assignValue opts v) s)
           | FieldType.map =>
               props ← entries v;
               updater fuel' opts (qualify id props) s
           | FieldType.list => Ok s  (* unsupported *)
           end)
        values s
  end.

Definition setValues (fuel : nat) (values : Dict JsValue)
    (opts : SetValuesOptions) (s : Store) : result Store :=
  updater fuel opts values s.

(** [updater] of [setInitialValues]. *)
Fixpoint initialUpdater (fuel : nat) (values : Dict JsValue) (s : Store)
    : result Store :=
  match fuel with
  | O => Fail OutOfFuel
  | S fuel' =>
      forEach
        (fun (entry : string * JsValue) s =>
           let id := entry.1 in
           let v := entry.2 in
           match type (getField s id) with
           | FieldType.field => Ok (setField id (with_initialValue v) s)
           | FieldType.map =>
               props ← entries v;
               initialUpdater fuel' (qualify id props) s
           | FieldType.list => Ok s  (* unsupported *)
           end)
        values s
  end.

Definition setInitialValues (fuel : nat) (values : Dict JsValue) (s : Store)
    : result Store :=
  initialUpdater fuel values s.

Definition setErrors (errors : Dict ValidationResult) (s : Store) : Store :=
  foldl (fun s (e : string * ValidationResult) =>
           setField e.1 (with_validation (createNamedValidation e.1 e.2)) s)
    s errors.

Definition setTouched (touched : Dict bool) (s : Store) : Store :=
  foldl (fun s (e : string * bool) =>
           setField e.1 (onFieldTypeOnly (with_touched e.2)) s)
    s touched.

(** [fieldIds.forEach((id) => set($field(fieldId(formId, id)),
    onFieldTypeOnly(f)))] *)
Definition onEachField (f : FieldState -> FieldState) (ids : list string)
    (s : Store) : Store :=
  foldl (fun s id => setField id (onFieldTypeOnly f) s) s ids.

Definition untouch (state : FieldState) : FieldState :=
  with_touchedAfterSubmit false (with_touched false state).

Definition resetTouched (s : Store) : Store :=
  onEachField untouch (allFieldIds s) s.

Definition touch (state : FieldState) : FieldState :=
  with_touchedAfterSubmit true (with_touched true state).

Definition setAllToTouched (s : Store) : Store :=
  onEachField touch (allFieldIds s) s.

Definition restore (state : FieldState) : FieldState :=
  let v := initialValue state in
  with_validation (validator state v)
    (with_touchedAfterSubmit false (with_touched false (with_value v state))).

Definition reset (s : Store) : Store :=
  onEachField restore (allFieldIds s) s.

Definition recheck (state : FieldState) : FieldState :=
  with_validation (validator state (value state)) state.

(** [revalidate(fieldIds = [])] *)
Definition revalidate (ids : list string) (s : Store) : Store :=
  let fieldIdsToValidate :=
    if decide (0 < length ids) then ids else allFieldIds s in
  onEachField recheck fieldIdsToValidate s.

Definition clear (s : Store) : Store :=
  let ids := allFieldIds s in
  foldl (fun s id => resetField id s) (resetForm s) ids.

(** [submit]: the store it leaves and the callbacks it invokes, in order.
    The callbacks are the caller's; what they do to the store in turn is
    not part of [submit]. *)
Definition submit (isValidProp : IsValidProp) (args : list JsValue)
    (s : Store) : Store * list Event :=
  let bag := getBag s args in
  if negb (selectValid isValidProp (bag_validation bag))
  then (setAllToTouched s, [onSubmitInvalid bag])
  else (s, [onSubmit bag]).

(** [createSubmitPromise]: [submit] runs, then the promise is recorded. *)
Definition createSubmitPromise (isValidProp : IsValidProp)
    (args : list JsValue) (promise : nat) (s : Store) : Store * list Event :=
  let r := submit isValidProp args s in
  (setForm (fun state => mkForm (fieldIds state) (Some promise)) r.1, r.2).

(** [names.forEach((name) => registration.add(name))]: each call hands
    [add] one name, a string. *)
Definition addFields (names : list string) (s : Store) : result Store :=
  forEach (fun name s => callAdd (NamesString name) s) names s.

(** [names.forEach((name) => registration.remove(name))] *)
Definition removeFields (names : list string) (s : Store) : result Store :=
  forEach (fun name s => callRemove (NamesString name) s) names s.

End useForm.
End Form.

(** ** Arrays *)

(** [xs[i]] for a number [i]: [undefined] outside the array. *)
Definition at_index {T} (xs : list T) (i : Z) : option T :=
  if decide (0 <= i)%Z then xs !! Z.to_nat i else None.

(** The relative index of [slice] and [splice]: a negative index counts
    from the end, and the result is clamped to the array. *)
Definition relIndex (len : nat) (i : Z) : nat :=
  if decide (i < 0)%Z then Z.to_nat (Z.max (Z.of_nat len + i) 0)
  else Z.to_nat (Z.min i (Z.of_nat len)).

(** [xs.slice(start, end)] and [xs.slice(start)] *)
Definition slice {T} (start stop : Z) (xs : list T) : list T :=
  let k := relIndex (length xs) start in
  let e := relIndex (length xs) stop in
  firstn (e - k) (skipn k xs).
Definition sliceFrom {T} (start : Z) (xs : list T) : list T :=
  skipn (relIndex (length xs) start) xs.

(** [xs.splice(index, 0, x)] on a copy of [xs]. *)
Definition spliceIn {T} (index : Z) (x : T) (xs : list T) : list T :=
  let k := relIndex (length xs) index in
  firstn k xs ++ x :: skipn k xs.

(** An array that may hold [undefined], read back as a [string[]]. *)
Definition asStrings (xs : list (option string)) : result (list string) :=
  match mapM (fun x : option string => x) xs with
  | Some cs => Ok cs
  | None => Fail NotAString
  end.

(** ** The list hook (useList) *)

(** The hook's state: the store and the ref [namesToReuse], a [Set] kept
    here in insertion order. *)
Record ListState : Type := mkList {
  store : Store;
  namesToReuse : list string;
}.

(** [Set.prototype.add] and [Set.prototype.delete] *)
Definition setAdd (x : string) (xs : list string) : list string :=
  if decide (x ∈ xs) then xs else xs ++ [x].
Definition setDelete (x : string) (xs : list string) : list string :=
  filter (fun y => y ≠ x) xs.

(** [a || b] on an optional string: [undefined] and the empty string are
    falsy. *)
Definition orElse (a : option string) (b : string) : string :=
  match a with
  | None => b
  | Some EmptyString => b
  | Some r => r
  end.

Module UseList.
Section useList.

(** The path of the list node. *)
Variable name : string.

(** [const last = (xs) => xs[xs.length - 1]], on the segments of a name
    (never empty). *)
Definition lastSegment (n : string) : string :=
  default EmptyString (last (split n)).

Definition removeName (n : string) (pool : list string) : list string :=
  setAdd (lastSegment n) pool.

(** [generateNewName]; [fresh] is what the call [uid()] returns when it
    is made. *)
Definition generateNewName (fresh : string) (pool : list string)
    : string * list string :=
  let reusedName := head pool in
  let pool' :=
    match reusedName with
    | Some r => setDelete r pool
    | None => pool
    end in
  (name +:+ "." +:+ orElse reusedName fresh, pool').

(** [setFieldState(updater)] on the list's own cell. *)
Definition setFieldState (updater : FieldState -> FieldState)
    (st : ListState) : ListState :=
  mkList (setField name updater (store st)) (namesToReuse st).

(** The mount effect: [registration.add(name)], with the name as it is,
    then [setFieldState((state) => ({...state, type: 'list'}))].  The
    cleanup is what the effect returns when it has run to its end. *)
Definition mount (st : ListState) : result ListState :=
  s ← callAdd (NamesString name) (store st);
  Ok (setFieldState (with_type FieldType.list) (mkList s (namesToReuse st))).

Definition add (fresh : string) (st : ListState) : string * ListState :=
  let g := generateNewName fresh (namesToReuse st) in
  let newName := g.1 in
  (newName,
   setFieldState (fun state => with_children (children state ++ [newName]) state)
     (mkList (store st) g.2)).

Definition addAt (index : Z) (fresh : string) (st : ListState)
    : string * ListState :=
  let g := generateNewName fresh (namesToReuse st) in
  let newName := g.1 in
  (newName,
   setFieldState
     (fun state => with_children (spliceIn index newName (children state)) state)
     (mkList (store st) g.2)).

(** [state.children.filter((name, i) => i !== index)] *)
Definition dropIndex (index : Z) (cs : list string) : list string :=
  (filter (fun p : nat * string => Z.of_nat p.1 ≠ index) (imap pair cs)).*2.

(** [remove]: the filter callback releases the name it drops. *)
Definition remove (index : Z) (st : ListState) : ListState :=
  let cs := children (getField (store st) name) in
  let pool :=
    match at_index cs index with
    | Some n => removeName n (namesToReuse st)
    | None => namesToReuse st
    end in
  setFieldState (fun state => with_children (dropIndex index (children state)) state)
    (mkList (store st) pool).

Definition removeAll (st : ListState) : ListState :=
  let cs := children (getField (store st) name) in
  setFieldState (with_children [])
    (mkList (store st) (foldl (fun pool n => removeName n pool) (namesToReuse st) cs)).

(** The [map] of [swap]; a slot receives [undefined] when the other index
    lies outside the array. *)
Definition swapChildren (a b : Z) (cs : list string) : list (option string) :=
  let ax := at_index cs a in
  let bx := at_index cs b in
  imap (fun i x =>
          if decide (Z.of_nat i = a) then bx
          else if decide (Z.of_nat i = b) then ax
          else Some x) cs.

Definition swap (a b : Z) (st : ListState) : result ListState :=
  cs ← asStrings (swapChildren a b (children (getField (store st) name)));
  Ok (setFieldState (with_children cs) st).

Definition moveChildren (from to : Z) (cs : list string) : list (option string) :=
  let before := slice 0 from cs in
  let after := sliceFrom (from + 1) cs in
  let tempChildren := before ++ after in
  let beforeNew := slice 0 to tempChildren in
  let afterNew := sliceFrom to tempChildren in
  (Some <$> beforeNew) ++ at_index cs from :: (Some <$> afterNew).

Definition move (from to : Z) (st : ListState) : result ListState :=
  cs ← asStrings (moveChildren from to (children (getField (store st) name)));
  Ok (setFieldState (with_children cs) st).

End useList.
End UseList.

(** Modelled from the spec: the selector [$allFieldIds] of selectors.ts,
    which is not among the sources: a traversal from every top-level id
    down through the children of [map] and [list] nodes, returning the
    paths of the leaves.  [depth] bounds the descent. *)
Fixpoint leavesBelow (depth : nat) (s : Store) (id : string) : list string :=
  match depth with
  | O => []
  | S depth' =>
      if decide (type (getField s id) = FieldType.field) then [id]
      else flat_map (leavesBelow depth' s) (children (getField s id))
  end.

Definition allLeaves (depth : nat) (s : Store) : list string :=
  flat_map (leavesBelow depth s) (fieldIds (form s)).

(** Modelled from the spec: [$formValidation], the conjunction of the
    leaves' validation results; and a bag built from it, whose other
    aggregates are left undefined. *)
Definition leavesValidation (depth : nat) (s : Store) : ValidationResult :=
  mkValidation
    (forallb (fun id => isValid (validation (getField s id))) (allLeaves depth s))
    (forallb (fun id => isValidStrict (validation (getField s id)))
       (allLeaves depth s)).

Definition bagOf (depth : nat) (s : Store) (args : list JsValue) : Bag :=
  mkBag JUndefined JUndefined JUndefined [] (fieldIds (form s))
    (leavesValidation depth s) [] args.

(** ** Predicates used in the statements *)

(** [linked s p c]: the cell at [p] has been written, is a structural
    node and lists [c] among its children. *)
Definition linked (s : Store) (p c : string) : Prop :=
  exists st, fields s !! p = Some st
             /\ type st ≠ FieldType.field /\ c ∈ children st.

(** [wired s name]: every proper prefix of [name] is linked to the next. *)
Definition wired (s : Store) (name : string) : Prop :=
  forall i, i < length (split name) - 1 ->
    linked s (nestedName (i + 1) (split name)) (nestedName (i + 2) (split name)).

(** [ns[0]] for the segments of [name]: the id pushed on [toAdd]. *)
Definition topLevel (name : string) : string := hd EmptyString (split name).


(** The variant a node has after a nested name was registered under it:
    a plain field has become a map, a map or a list is what it was. *)
Definition coerced (t : FieldType.t) : FieldType.t :=
  match t with
  | FieldType.field => FieldType.map
  | t => t
  end.

(** The tree a three-segment name is said to leave behind, read with both
    inner nodes as maps. *)
Definition nestedAsMaps (s : Store) (a b c : string) : Prop :=
  type (getField s a) = FieldType.map
  /\ join [a; b] ∈ children (getField s a)
  /\ type (getField s (join [a; b])) = FieldType.map
  /\ join [a; b; c] ∈ children (getField s (join [a; b]))
  /\ a ∈ fieldIds (form s).

(** A sample store with a list node at [name]: the id registered and the
    cell's variant set to [list].  It is given, not the outcome of an
    operation of the sources. *)
Definition listMounted (name : string) : Store :=
  setField name (with_type FieldType.list) (register name emptyStore).

(** [sameTypes s s']: every cell has in [s'] the variant it has in [s]. *)
Definition sameTypes (s s' : Store) : Prop :=
  forall k, type (getField s' k) = type (getField s k).


(** A form with the plain field [name] and the list [tags], as in the
    spec's scenario. *)
Definition nameAndTags : Store := register "name" (listMounted "tags").

(** A validator that requires a non-empty string, and the scenario's form
    with [name] edited after an empty initial value. *)
Definition required (v : JsValue) : ValidationResult :=
  match v with
  | JStr (String _ _) => validResult
  | _ => mkValidation false false
  end.

Definition edited : Store :=
  setField "name"
    (fun _ => mkField FieldType.field [] (JStr "x") (JStr "") true true
                required validResult)
    nameAndTags.

Definition blank : Store :=
  setField "name"
    (fun _ => mkField FieldType.field [] (JStr "") (JStr "") false false
                required (required (JStr "")))
    nameAndTags.

(** The list [tags] after two calls of [add], with [u1] and [u2] the ids
    that [uid()] returned. *)
Definition twoRows : ListState :=
  (UseList.add "tags" "u2"
     (UseList.add "tags" "u1" (mkList (listMounted "tags") [])).2).2.

(** The node [tags] with a field registered under the name ["tags."],
    whose last segment is the empty string. *)
Definition trailingDot : ListState :=
  mkList (register "tags." emptyStore) [].

(** The node [tags] after two calls of the list hook's [add] on a new
    form, with [u1] and [u2] the ids that [uid()] returned. *)
Definition addedTwice : ListState :=
  (UseList.add "tags" "u2" (UseList.add "tags" "u1" (mkList emptyStore [])).2).2.


(** * Further definitions *)

(** [dropRight(1, name.split('.')).join('.')]: the path of the parent. *)
Definition parentOf (name : string) : string :=
  join (dropRight 1 (split name)).

(** [sameData st st']: the two states agree on every property but [type]
    and [children]. *)
Definition sameData (st st' : FieldState) : Prop :=
  value st' = value st
  /\ initialValue st' = initialValue st
  /\ touched st' = touched st
  /\ touchedAfterSubmit st' = touchedAfterSubmit st
  /\ validator st' = validator st
  /\ validation st' = validation st.

(** [onlyGrows s s']: between the two stores cells kept their data and
    their children, in order, with new children at the end at most. *)
Definition onlyGrows (s s' : Store) : Prop :=
  forall k, sameData (getField s k) (getField s' k)
            /\ children (getField s k) `prefix_of` children (getField s' k).

(** [sameButValue st st']: the two states agree on every property but
    [value] and [validation]. *)
Definition sameButValue (st st' : FieldState) : Prop :=
  type st' = type st
  /\ children st' = children st
  /\ initialValue st' = initialValue st
  /\ touched st' = touched st
  /\ touchedAfterSubmit st' = touchedAfterSubmit st
  /\ validator st' = validator st.

(** [sameButInitial st st']: the two states agree on every property but
    [initialValue]. *)
Definition sameButInitial (st st' : FieldState) : Prop :=
  type st' = type st
  /\ children st' = children st
  /\ value st' = value st
  /\ touched st' = touched st
  /\ touchedAfterSubmit st' = touchedAfterSubmit st
  /\ validator st' = validator st
  /\ validation st' = validation st.

(** The flat dictionary for the properties of an object at path [id]:
    each key qualified by the path. *)
Definition flatten (id : string) (props : list (string * JsValue))
    : Dict JsValue :=
  (fun kv : string * JsValue => (id +:+ "." +:+ kv.1, kv.2)) <$> props.

(** [registered s name]: the name is wired and its first segment is among
    [fieldIds]. *)
Definition registered (s : Store) (name : string) : Prop :=
  wired s name /\ topLevel name ∈ fieldIds (form s).

(** The frames of the two bulk setters, over a whole store. *)
Definition valueFrame (s s' : Store) : Prop :=
  form s' = form s /\ forall k, sameButValue (getField s k) (getField s' k).

Definition initialFrame (s s' : Store) : Prop :=
  form s' = form s /\ forall k, sameButInitial (getField s k) (getField s' k).


(** ** [createRows] of the list hook *)

(** [rows.reduce((acc, row) => { const rowName = add(); ... }, {})].
    [fresh i] is what [uid()] returns in the [add()] of row [i], when
    that call is made.  The state is returned whatever happens: when
    [Object.entries(row)] throws, the [add()] calls made so far, the one
    for this row included, have been carried out. *)
Fixpoint createRowsFrom (name : string) (fresh : nat -> string) (i : nat)
    (rows : list JsValue) (acc : Dict JsValue) (st : ListState)
    : ListState * result (Dict JsValue) :=
  match rows with
  | [] => (st, Ok acc)
  | row :: rest =>
      let r := UseList.add name (fresh i) st in
      let rowName := r.1 in
      match entries row with
      | Ok props =>
          createRowsFrom name fresh (S i) rest
            (foldl (fun acc kv => assign acc (rowName +:+ "." +:+ kv.1) kv.2)
               acc props)
            r.2
      | Fail e => (r.2, Fail e)
      end
  end.

Definition createRows (name : string) (fresh : nat -> string)
    (rows : list JsValue) (st : ListState)
    : ListState * result (Dict JsValue) :=
  createRowsFrom name fresh 0 rows [] st.

(** A value that [Object.entries] accepts. *)
Definition hasEntries (v : JsValue) : Prop := v ≠ JNull /\ v ≠ JUndefined.

(** ** OnFormReady.tsx *)

Module OnFormReady.

(** The [state] of a loadable. *)
Inductive LoadableState : Set := hasValue | loading | hasError.

#[global] Instance LoadableState_eq_dec : EqDecision LoadableState.
Proof. solve_decision. Defined.

(** [useFormReadyLoadable]: the [reduce] over the loadables of
    [$formReadyDelay] and [$values]. *)
Definition useFormReadyLoadable (delay values : LoadableState) : bool :=
  foldl (fun acc state => acc && bool_decide (state = hasValue)) true
    [delay; values].

(** One mounted [OnFormReadyInner]: the ref [run], the number of times
    [cb] was called, and the [ready] of the last render (the effect's only
    dependency), if there was one. *)
Record Inner : Set := mkInner {
  run : bool;
  calls : nat;
  lastReady : option bool;
}.

Definition mounted : Inner := mkInner false 0 None.

(** The body of the effect ([console.log] left aside). *)
Definition effect (ready : bool) (st : Inner) : Inner :=
  if ready && negb (run st)
  then mkInner true (S (calls st)) (lastReady st)
  else st.

(** One render: the effect runs after the first render and after every
    render in which [ready] differs from the previous one. *)
Definition render (st : Inner) (loadables : LoadableState * LoadableState)
    : Inner :=
  let ready := useFormReadyLoadable loadables.1 loadables.2 in
  let st' :=
    match lastReady st with
    | None => effect ready st
    | Some previous => if Bool.eqb previous ready then st else effect ready st
    end in
  mkInner (run st') (calls st') (Some ready).

Definition renders (history : list (LoadableState * LoadableState)) : Inner :=
  foldl render mounted history.

End OnFormReady.

(** [below name key]: the key is a path below [name]. *)
Definition below (name key : string) : Prop :=
  exists rest, key = name +:+ "." +:+ rest.

(** Both loadables have a value. *)
Definition readyAt
    (loadables : OnFormReady.LoadableState * OnFormReady.LoadableState)
    : Prop :=
  loadables.1 = OnFormReady.hasValue /\ loadables.2 = OnFormReady.hasValue.

(** What a mounted component is after some renders: either the callback
    has run, once, or it has not and no render so far was ready. *)
Definition settled (history : list (OnFormReady.LoadableState * OnFormReady.LoadableState))
    (st : OnFormReady.Inner) : Prop :=
  (OnFormReady.run st = true /\ OnFormReady.calls st = 1 /\ Exists readyAt history)
  \/ (OnFormReady.run st = false /\ OnFormReady.calls st = 0 /\ Forall (fun l => ~ readyAt l) history
      /\ OnFormReady.lastReady st ≠ Some true).


(** ** The operations as a machine *)

(** A form with its lists: the store, and for each list hook the pool
    behind its [namesToReuse] ref. *)
Record World : Type := mkWorld {
  cells : Store;
  pools : gmap string (list string);
}.

(** The calls the sources offer: the two registration transactions with
    an array, the functions the form hook returns, the mount effect of the
    list hook and the functions it returns. *)
Inductive Operation : Type :=
| OpRegister (names : list string)
| OpUnregister (names : list string)
| OpAddFields (names : list string)
| OpRemoveFields (names : list string)
| OpSetValues (fuel : nat) (values : Dict JsValue) (opts : SetValuesOptions)
| OpSetInitialValues (fuel : nat) (values : Dict JsValue)
| OpSetErrors (errors : Dict ValidationResult)
| OpSetTouched (touched : Dict bool)
| OpResetTouched
| OpSetAllToTouched
| OpReset
| OpRevalidate (ids : list string)
| OpSubmit (isValidProp : IsValidProp) (args : list JsValue) (promise : nat)
| OpClear
| OpListMount (name : string)
| OpListAdd (name fresh : string)
| OpListAddAt (name : string) (index : Z) (fresh : string)
| OpListRemove (name : string) (index : Z)
| OpListRemoveAll (name : string)
| OpListSwap (name : string) (a b : Z)
| OpListMove (name : string) (from to : Z)
| OpListCreateRows (name : string) (fresh : nat -> string) (rows : list JsValue).


Definition onCells (f : Store -> Store) (w : World) : World :=
  mkWorld (f (cells w)) (pools w).

Definition listOf (name : string) (w : World) : ListState :=
  mkList (cells w) (default [] (pools w !! name)).

Definition putList (name : string) (st : ListState) (w : World) : World :=
  mkWorld (store st) (<[name := namesToReuse st]> (pools w)).


Section machine.

Variable allFieldIds : Store -> list string.
Variable getBag : Store -> list JsValue -> Bag.
Variable createNamedValidation : string -> ValidationResult -> ValidationResult.

(** One call, as far as it returns a world the model holds. *)
Definition step (op : Operation) (w : World) : result World :=
  match op with
  | OpRegister names =>
      s ← callAdd (NamesArray names) (cells w); Ok (mkWorld s (pools w))
  | OpUnregister names =>
      s ← callRemove (NamesArray names) (cells w); Ok (mkWorld s (pools w))
  | OpAddFields names =>
      s ← Form.addFields names (cells w); Ok (mkWorld s (pools w))
  | OpRemoveFields names =>
      s ← Form.removeFields names (cells w); Ok (mkWorld s (pools w))
  | OpSetValues fuel values opts =>
      s ← Form.setValues fuel values opts (cells w); Ok (mkWorld s (pools w))
  | OpSetInitialValues fuel values =>
      s ← Form.setInitialValues fuel values (cells w); Ok (mkWorld s (pools w))
  | OpSetErrors errors =>
      Ok (onCells (Form.setErrors createNamedValidation errors) w)
  | OpSetTouched touched => Ok (onCells (Form.setTouched touched) w)
  | OpResetTouched => Ok (onCells (Form.resetTouched allFieldIds) w)
  | OpSetAllToTouched => Ok (onCells (Form.setAllToTouched allFieldIds) w)
  | OpReset => Ok (onCells (Form.reset allFieldIds) w)
  | OpRevalidate ids => Ok (onCells (Form.revalidate allFieldIds ids) w)
  | OpSubmit isValidProp args promise =>
      Ok (onCells
            (fun s => (Form.createSubmitPromise allFieldIds getBag isValidProp
                         args promise s).1) w)
  | OpClear => Ok (onCells (Form.clear allFieldIds) w)
  | OpListMount name =>
      st ← UseList.mount name (listOf name w); Ok (putList name st w)
  | OpListAdd name fresh =>
      Ok (putList name (UseList.add name fresh (listOf name w)).2 w)
  | OpListAddAt name index fresh =>
      Ok (putList name (UseList.addAt name index fresh (listOf name w)).2 w)
  | OpListRemove name index =>
      Ok (putList name (UseList.remove name index (listOf name w)) w)
  | OpListRemoveAll name =>
      Ok (putList name (UseList.removeAll name (listOf name w)) w)
  | OpListSwap name a b =>
      st ← UseList.swap name a b (listOf name w); Ok (putList name st w)
  | OpListMove name from to =>
      st ← UseList.move name from to (listOf name w); Ok (putList name st w)
  | OpListCreateRows name fresh rows =>
      Ok (putList name (createRows name fresh rows (listOf name w)).1 w)
  end.



(** The world after a call that returns or throws. *)
Definition after (op : Operation) (w : World) : World :=
  match step op w with
  | Ok w1 => w1
  | Fail _ => w
  end.


End machine.





(** [createNamedValidation] of selectors.ts is not among the sources; the
    examples take the error as it is given. *)
Definition plainError (_ : string) (r : ValidationResult) : ValidationResult := r.

(** A sequence of calls on a new form: a batch is registered, the list
    hook's effect and [addFields] throw, rows are added and reordered, once
    with an index outside the array, values are set, the form is reset and
    cleared. *)
Definition sampleOps : list Operation :=
  [OpRegister ["name"; "a.b"];
   OpListMount "tags";
   OpAddFields ["c"];
   OpListAdd "tags" "u1";
   OpListAdd "tags" "u2";
   OpSetValues 3 [("name", JStr "x"); ("a", JObj [("b", JNum 1)])] defaultOptions;
   OpListSwap "tags" 0 1;
   OpListSwap "tags" 0 5;
   OpReset;
   OpClear].

Definition sampleStart : World := mkWorld emptyStore ∅.

(** The worlds the sample passes through; the swap outside the array is
    taken to leave its list as it was. *)
Definition sampleEnd : World :=
  foldl (fun w op => after (allLeaves 4) (bagOf 4) plainError op w)
    sampleStart sampleOps.

(** ** The ids of a list's rows *)

(** [plainId id]: an id that is not the empty string and holds no dot, as
    those [uid()] returns (the function is imported, not among the
    sources). *)
Definition plainId (id : string) : Prop :=
  id ≠ EmptyString /\ dotfree id = true.

(** [recyclable name st]: the pool of the list at [name] holds plain ids
    only, and so is the id that [removeName] would release for each of the
    list's children. *)
Definition recyclable (name : string) (st : ListState) : Prop :=
  Forall plainId (namesToReuse st)
  /\ Forall (fun c => plainId (UseList.lastSegment c))
       (children (getField (store st) name)).
(** * Properties *)

Example split_abc : split "a.b.c" = ["a"; "b"; "c"].
Proof. reflexivity. Qed.
Example split_empty : split "" = [""].
Proof. reflexivity. Qed.
Example split_trailing : split "tags." = ["tags"; ""].
Proof. reflexivity. Qed.
Example nested_abc : nestedName 2 (split "a.b.c") = "a.b".
Proof. reflexivity. Qed.
Example register_abc_a :
  type (getField (register "a.b.c" emptyStore) "a") = FieldType.map
  /\ children (getField (register "a.b.c" emptyStore) "a") = ["a.b"]
  /\ children (getField (register "a.b.c" emptyStore) "a.b") = ["a.b.c"]
  /\ fieldIds (form (register "a.b.c" emptyStore)) = ["a"].
Proof. vm_compute. auto. Qed.

(** ** Basic facts about the store *)

Lemma getField_setField_eq k f s :
  getField (setField k f s) k = f (getField s k).
Proof. unfold getField, setField; simpl. by rewrite lookup_insert_eq. Qed.

Lemma getField_setField_ne k k' f s :
  k ≠ k' -> getField (setField k f s) k' = getField s k'.
Proof. intros H. unfold getField, setField; simpl. by rewrite lookup_insert_ne. Qed.

Lemma getField_setField k k' f s :
  getField (setField k f s) k' =
  if decide (k = k') then f (getField s k) else getField s k'.
Proof.
  case_decide; [subst; apply getField_setField_eq
               | by apply getField_setField_ne].
Qed.

Lemma form_setField k f s : form (setField k f s) = form s.
Proof. reflexivity. Qed.

Lemma getField_setForm f s k : getField (setForm f s) k = getField s k.
Proof. reflexivity. Qed.

Lemma getField_lookup s k st : fields s !! k = Some st -> getField s k = st.
Proof. intros H. unfold getField. by rewrite H. Qed.

(** Writing back what a present cell already holds changes nothing. *)
Lemma setField_id k f s st :
  fields s !! k = Some st -> f st = st -> setField k f s = s.
Proof.
  intros Hk Hf. destruct s as [m fm]. unfold setField, getField; simpl in *.
  rewrite Hk; simpl. rewrite Hf. f_equal. by apply insert_id.
Qed.

(** ** Facts about [split] and [join] *)

Lemma split_nonempty s : split s ≠ [].
Proof.
  destruct s as [|c s]; simpl; [done|].
  destruct (Ascii.eqb c dot); [done|]. by destruct (split s).
Qed.

Lemma join_cons x y rest : join (x :: y :: rest) = x +:+ "." +:+ join (y :: rest).
Proof. reflexivity. Qed.

(** Joining the segments of a name gives the name back. *)
Lemma join_split s : join (split s) = s.
Proof.
  induction s as [|c s IH]; simpl; [done|].
  pose proof (split_nonempty s) as Hne.
  destruct (split s) as [|seg segs] eqn:Es; [done|].
  destruct (Ascii.eqb c dot) eqn:E.
  - apply Ascii.eqb_eq in E. subst c.
    rewrite join_cons, IH. reflexivity.
  - destruct segs as [|seg' segs].
    + simpl in *. by rewrite IH.
    + rewrite join_cons in IH |- *. rewrite <- IH. reflexivity.
Qed.

Lemma split_dotfree seg : dotfree seg = true -> split seg = [seg].
Proof.
  induction seg as [|c seg IH]; simpl; [done|].
  intros [Hc Hs]%andb_prop. apply negb_true_iff in Hc. rewrite Hc.
  by rewrite (IH Hs).
Qed.

Lemma split_app_dot seg rest :
  dotfree seg = true -> split (seg +:+ "." +:+ rest) = seg :: split rest.
Proof.
  induction seg as [|c seg IH]; simpl; [done|].
  intros [Hc Hs]%andb_prop. apply negb_true_iff in Hc. rewrite Hc.
  by rewrite (IH Hs).
Qed.

(** Splitting a name built from dot-free segments returns the segments. *)
Lemma split_join segs :
  segs ≠ [] -> Forall (fun seg => dotfree seg = true) segs ->
  split (join segs) = segs.
Proof.
  induction segs as [|x segs IH]; [done|]. intros _ Hall.
  apply Forall_cons in Hall as [Hx Hall].
  destruct segs as [|y segs]; [by apply split_dotfree|].
  rewrite join_cons, split_app_dot by done. f_equal. by apply IH.
Qed.

Lemma length_append (a b : string) :
  String.length (a +:+ b) = String.length a + String.length b.
Proof. induction a; simpl; auto. Qed.

(** A path is never equal to one of its proper extensions. *)
Lemma append_dot_ne (p q : string) : p +:+ "." +:+ q ≠ p.
Proof.
  intros H. apply (f_equal String.length) in H.
  rewrite !length_append in H. simpl in H. lia.
Qed.

(** ** Registration *)

Section registration.
Import Registration.

Lemma coerce_type st : type (coerce st) = coerced (type st).
Proof. unfold coerce. case_decide as H; [by rewrite H|]. by destruct (type st). Qed.

Lemma coerce_nonfield st : type (coerce st) ≠ FieldType.field.
Proof. rewrite coerce_type. by destruct (type st). Qed.

Lemma coerce_id st : type st ≠ FieldType.field -> coerce st = st.
Proof. intros H. unfold coerce. by case_decide. Qed.

Lemma link_type c st : type (link c st) = type st.
Proof. unfold link. by case_decide. Qed.

Lemma addOnlyIfUnique_elem xs x : x ∈ addOnlyIfUnique xs x.
Proof.
  unfold addOnlyIfUnique. case_decide; [done|].
  apply elem_of_app. right. by apply list_elem_of_singleton.
Qed.

Lemma addOnlyIfUnique_mono xs x y : y ∈ xs -> y ∈ addOnlyIfUnique xs x.
Proof.
  intros H. unfold addOnlyIfUnique. case_decide; [done|].
  apply elem_of_app. by left.
Qed.

Lemma addOnlyIfUnique_id xs x : x ∈ xs -> addOnlyIfUnique xs x = xs.
Proof. intros H. unfold addOnlyIfUnique. by case_decide. Qed.

Lemma addOnlyIfUnique_NoDup xs x : NoDup xs -> NoDup (addOnlyIfUnique xs x).
Proof.
  intros H. unfold addOnlyIfUnique. case_decide as Hx; [done|].
  apply NoDup_app. split_and!; [done| |apply NoDup_singleton].
  intros y Hy ->%list_elem_of_singleton. done.
Qed.

Lemma link_child c st :
  type st ≠ FieldType.field -> c ∈ children (link c st).
Proof.
  intros H. unfold link. case_decide; [|done]. apply addOnlyIfUnique_elem.
Qed.

Lemma link_mono c y st : y ∈ children st -> y ∈ children (link c st).
Proof.
  intros H. unfold link. case_decide; [|done]. by apply addOnlyIfUnique_mono.
Qed.

Lemma link_id c st : c ∈ children st -> link c st = st.
Proof.
  intros H. unfold link. case_decide; [|done].
  rewrite addOnlyIfUnique_id by done. by destruct st.
Qed.

(** What one round of the loop does to the cells. *)
Lemma getField_addNode ns s i k :
  getField (addNode ns s i) k =
  if decide (nestedName (i + 1) ns = k)
  then link (nestedName (i + 2) ns) (coerce (getField s k))
  else getField s k.
Proof.
  unfold addNode. rewrite !getField_setField.
  repeat case_decide; subst; done.
Qed.

Lemma form_addNode ns s i : form (addNode ns s i) = form s.
Proof. reflexivity. Qed.

Lemma form_foldl_addNode ns idxs s : form (foldl (addNode ns) s idxs) = form s.
Proof. revert s. induction idxs as [|i idxs IH]; intros s; simpl; [done|]. by rewrite IH. Qed.

Lemma form_addNodes ns s : form (addNodes ns s) = form s.
Proof. apply form_foldl_addNode. Qed.

Lemma lookup_addNode_eq ns s i :
  fields (addNode ns s i) !! nestedName (i + 1) ns =
  Some (link (nestedName (i + 2) ns) (coerce (getField s (nestedName (i + 1) ns)))).
Proof.
  unfold addNode, setField at 1; simpl. rewrite lookup_insert_eq.
  by rewrite getField_setField_eq.
Qed.

Lemma lookup_addNode_ne ns s i k :
  nestedName (i + 1) ns ≠ k -> fields (addNode ns s i) !! k = fields s !! k.
Proof.
  intros H. unfold addNode, setField; simpl. by rewrite !lookup_insert_ne.
Qed.

Lemma addNode_links ns s i :
  linked (addNode ns s i) (nestedName (i + 1) ns) (nestedName (i + 2) ns).
Proof.
  eexists. split; [apply lookup_addNode_eq|]. split.
  - rewrite link_type. apply coerce_nonfield.
  - apply link_child, coerce_nonfield.
Qed.

Lemma addNode_linked ns s i p c : linked s p c -> linked (addNode ns s i) p c.
Proof.
  intros (st & Hst & Ht & Hc).
  destruct (decide (nestedName (i + 1) ns = p)) as [<-|Hne].
  - eexists. split; [apply lookup_addNode_eq|].
    rewrite (getField_lookup _ _ _ Hst), coerce_id by done. split.
    + by rewrite link_type.
    + by apply link_mono.
  - exists st. by rewrite lookup_addNode_ne.
Qed.

Lemma addNode_id ns s i :
  linked s (nestedName (i + 1) ns) (nestedName (i + 2) ns) ->
  addNode ns s i = s.
Proof.
  intros (st & Hst & Ht & Hc). unfold addNode.
  rewrite (setField_id _ coerce s st) by (done || by apply coerce_id).
  apply (setField_id _ _ s st); [done|]. by apply link_id.
Qed.

Lemma foldl_addNode_linked ns idxs s p c :
  linked s p c -> linked (foldl (addNode ns) s idxs) p c.
Proof.
  revert s. induction idxs as [|i idxs IH]; intros s H; simpl; [done|].
  by apply IH, addNode_linked.
Qed.

Lemma foldl_addNode_links ns idxs s i :
  i ∈ idxs ->
  linked (foldl (addNode ns) s idxs) (nestedName (i + 1) ns) (nestedName (i + 2) ns).
Proof.
  revert s. induction idxs as [|j idxs IH]; intros s H; simpl.
  - by apply elem_of_nil in H.
  - apply elem_of_cons in H as [->|H]; [|by apply IH].
    apply foldl_addNode_linked, addNode_links.
Qed.

Lemma foldl_addNode_id ns idxs s :
  (forall i, i ∈ idxs ->
     linked s (nestedName (i + 1) ns) (nestedName (i + 2) ns)) ->
  foldl (addNode ns) s idxs = s.
Proof.
  induction idxs as [|i idxs IH]; intros H; simpl; [done|].
  rewrite addNode_id by (apply H; left). apply IH.
  intros j Hj. apply H. by right.
Qed.

Lemma addNodes_linked ns s p c : linked s p c -> linked (addNodes ns s) p c.
Proof. apply foldl_addNode_linked. Qed.

Lemma addNodes_wired name s : wired (addNodes (split name) s) name.
Proof.
  intros i Hi. apply foldl_addNode_links. apply elem_of_seq. lia.
Qed.

Lemma addNodes_id name s : wired s name -> addNodes (split name) s = s.
Proof.
  intros H. apply foldl_addNode_id. intros i Hi%elem_of_seq. apply H. lia.
Qed.

Lemma foldl_addName_snd names s acc :
  (foldl addName (s, acc) names).2 = acc ++ (topLevel <$> names).
Proof.
  revert s acc. induction names as [|n names IH]; intros s acc; simpl.
  - by rewrite app_nil_r.
  - unfold addName at 2; simpl. rewrite IH. by rewrite <- app_assoc.
Qed.

Lemma foldl_addName_fst names s acc :
  (foldl addName (s, acc) names).1 =
  foldl (fun s n => addNodes (split n) s) s names.
Proof.
  revert s acc. induction names as [|n names IH]; intros s acc; simpl; [done|].
  unfold addName at 2; simpl. by rewrite IH.
Qed.

Lemma add_unfold names s :
  add names s =
  setForm (addToForm (topLevel <$> names))
    (foldl (fun s n => addNodes (split n) s) s names).
Proof. unfold add. by rewrite foldl_addName_snd, foldl_addName_fst. Qed.

Lemma foldl_addNodes_linked names s p c :
  linked s p c -> linked (foldl (fun s n => addNodes (split n) s) s names) p c.
Proof.
  revert s. induction names as [|n names IH]; intros s H; simpl; [done|].
  by apply IH, addNodes_linked.
Qed.

Lemma foldl_addNodes_wired names s n :
  n ∈ names -> wired (foldl (fun s n => addNodes (split n) s) s names) n.
Proof.
  revert s. induction names as [|m names IH]; intros s H; simpl.
  - by apply elem_of_nil in H.
  - apply elem_of_cons in H as [->|H]; [|by apply IH].
    intros i Hi. apply foldl_addNodes_linked. by apply addNodes_wired.
Qed.

Lemma foldl_addNodes_id names s :
  (forall n, n ∈ names -> wired s n) ->
  foldl (fun s n => addNodes (split n) s) s names = s.
Proof.
  induction names as [|m names IH]; intros H; simpl; [done|].
  rewrite addNodes_id by (apply H; left). apply IH.
  intros n Hn. apply H. by right.
Qed.

Lemma form_foldl_addNodes names s :
  form (foldl (fun s n => addNodes (split n) s) s names) = form s.
Proof.
  revert s. induction names as [|m names IH]; intros s; simpl; [done|].
  by rewrite IH, form_addNodes.
Qed.

Lemma linked_setForm f s p c : linked (setForm f s) p c <-> linked s p c.
Proof. reflexivity. Qed.

Lemma filter_all_present (ids toAdd : list string) :
  (forall x, x ∈ toAdd -> x ∈ ids) -> filter (fun id => id ∉ ids) toAdd = [].
Proof.
  induction toAdd as [|x toAdd IH]; intros H; [done|].
  rewrite filter_cons_False; [|intros Hx; apply Hx, H; left].
  apply IH. intros y Hy. apply H. by right.
Qed.

Lemma addToForm_elem toAdd st x : x ∈ toAdd -> x ∈ fieldIds (addToForm toAdd st).
Proof.
  intros H. unfold addToForm; simpl. apply elem_of_app.
  destruct (decide (x ∈ fieldIds st)); [by left|right].
  by apply list_elem_of_filter.
Qed.

Lemma addToForm_id toAdd st :
  (forall x, x ∈ toAdd -> x ∈ fieldIds st) -> addToForm toAdd st = st.
Proof.
  intros H. unfold addToForm. rewrite filter_all_present by done.
  rewrite app_nil_r. by destruct st.
Qed.

End registration.

Section registration_results.
Import Registration.

(** Registering a batch a second time changes nothing: every node is
    already wired and every top-level id already present. *)
Lemma add_idempotent names s : add names (add names s) = add names s.
Proof.
  rewrite (add_unfold names s).
  set (s1 := foldl (fun s n => addNodes (split n) s) s names).
  rewrite add_unfold.
  rewrite foldl_addNodes_id.
  - destruct s1 as [m fm]. unfold setForm; simpl. f_equal.
    apply addToForm_id. intros x Hx. by apply addToForm_elem.
  - intros n Hn. intros i Hi. apply linked_setForm.
    by apply foldl_addNodes_wired.
Qed.

Lemma register_unfold name s :
  register name s =
  setForm (addToForm [topLevel name]) (addNodes (split name) s).
Proof. unfold register. by rewrite add_unfold. Qed.

(** The cells after registering a name of three segments. *)
Lemma register3_fields a b c s k :
  dotfree a = true -> dotfree b = true -> dotfree c = true ->
  getField (register (join [a; b; c]) s) k =
  if decide (k = a) then link (join [a; b]) (coerce (getField s a))
  else if decide (k = join [a; b])
       then link (join [a; b; c]) (coerce (getField s (join [a; b])))
       else getField s k.
Proof.
  intros Ha Hb Hc. rewrite register_unfold, getField_setForm.
  rewrite split_join by (done || by repeat constructor).
  unfold addNodes; simpl. rewrite !getField_addNode.
  change (nestedName (0 + 1) [a; b; c]) with a.
  change (nestedName (0 + 2) [a; b; c]) with (join [a; b]).
  change (nestedName (1 + 1) [a; b; c]) with (join [a; b]).
  change (nestedName (1 + 2) [a; b; c]) with (join [a; b; c]).
  assert (join [a; b] ≠ a) by apply append_dot_ne.
  repeat case_decide; subst; simpl in *; congruence.
Qed.

End registration_results.

(** After [register] is called with a name of three
    segments [a.b.c], the cell at [a] is a structural node listing [a.b]
    among its children and the cell at [a.b] is a structural node listing
    [a.b.c]: each is a [map] if it was a plain field or a map before and
    still a [list] if it was a list; and [fieldIds] contains [a]. *)
Theorem register_nested_structure (s : Store) (a b c : string) :
  dotfree a = true -> dotfree b = true -> dotfree c = true ->
  let s' := register (join [a; b; c]) s in
  type (getField s' a) = coerced (type (getField s a))
  /\ join [a; b] ∈ children (getField s' a)
  /\ type (getField s' (join [a; b])) = coerced (type (getField s (join [a; b])))
  /\ join [a; b; c] ∈ children (getField s' (join [a; b]))
  /\ a ∈ fieldIds (form s').
Proof.
  intros Ha Hb Hc s'. unfold s'.
  assert (Hne : join [a; b] ≠ a) by apply append_dot_ne.
  rewrite !register3_fields by done.
  rewrite decide_True by done.
  rewrite decide_False by done. rewrite decide_True by done.
  rewrite !link_type, !coerce_type.
  split_and!; try done.
  - apply link_child, coerce_nonfield.
  - apply link_child, coerce_nonfield.
  - rewrite register_unfold. unfold setForm; cbn [form].
    apply addToForm_elem. unfold topLevel. rewrite split_join by (done || by repeat constructor).
    simpl. by left.
Qed.

Lemma register_nested_structure_witness :
  let s' := register "a.b.c" emptyStore in
  type (getField s' "a") = FieldType.map
  /\ "a.b" ∈ children (getField s' "a")
  /\ type (getField s' "a.b") = FieldType.map
  /\ "a.b.c" ∈ children (getField s' "a.b")
  /\ "a" ∈ fieldIds (form s').
Proof.
  exact (register_nested_structure emptyStore "a" "b" "c"
           eq_refl eq_refl eq_refl).
Defined.

(** In a store given with a list node at [a], which no call of the
    sources leaves, the node stays a list when [a.b.c] is registered under
    it. *)
Example register_under_list_not_map :
  ~ nestedAsMaps (register "a.b.c" (listMounted "a")) "a" "b" "c".
Proof. intros [H _]. vm_compute in H. discriminate H. Qed.

(** Registration keeps what [fieldIds] held, in order, and adds at the
    end; a single name never introduces a duplicate. *)
Lemma add_fieldIds_prefix names s :
  fieldIds (form s) `prefix_of` fieldIds (form (Registration.add names s)).
Proof.
  rewrite add_unfold. unfold setForm; cbn [form].
  rewrite form_foldl_addNodes. unfold Registration.addToForm; simpl.
  by eexists.
Qed.

Lemma register_fieldIds_NoDup name s :
  NoDup (fieldIds (form s)) -> NoDup (fieldIds (form (register name s))).
Proof.
  intros H. rewrite register_unfold. unfold setForm; cbn [form].
  rewrite form_addNodes. unfold Registration.addToForm; cbn [fieldIds with_fieldIds].
  destruct (decide (topLevel name ∈ fieldIds (form s))) as [Hin|Hin].
  - rewrite filter_cons_False by (intros Hn; by apply Hn).
    by rewrite filter_nil, app_nil_r.
  - rewrite filter_cons_True by done. rewrite filter_nil.
    apply NoDup_app. split_and!; [done| |apply NoDup_singleton].
    intros x Hx ->%list_elem_of_singleton. done.
Qed.

(** One batch that names a new top-level id twice does enter it twice:
    the ids are compared with those registered before the batch. *)
Example add_batch_repeats :
  fieldIds (form (Registration.add ["a"; "a"] emptyStore)) = ["a"; "a"].
Proof. reflexivity. Qed.

(** [unregister] detaches the name from its parent and leaves the parent
    and the siblings in place. *)
Example unregister_abc :
  let s := register "a.b.d" (register "a.b.c" emptyStore) in
  children (getField (unregister "a.b.c" s) "a.b") = ["a.b.d"]
  /\ type (getField (unregister "a.b.c" s) "a.b") = FieldType.map
  /\ children (getField (unregister "a.b.c" s) "a") = ["a.b"]
  /\ fieldIds (form (unregister "a.b.c" s)) = ["a"].
Proof. vm_compute. auto. Qed.

(** C2.  Registration is idempotent: registering a name that was just
    registered leaves the whole store as it is, so every children list and
    [fieldIds] are the same as after the first call, with no duplicate and
    in the same order. *)
Theorem register_idempotent (s : Store) (name : string) :
  register name (register name s) = register name s.
Proof. unfold register. apply add_idempotent. Qed.

(** ** The form hook *)

Lemma with_value_validation st v :
  with_validation (validation st) (with_value v st) = with_value v st.
Proof. reflexivity. Qed.

Lemma forEach_app {A} (f : A -> Store -> result Store) xs ys s :
  forEach f (xs ++ ys) s = (s' ← forEach f xs s; forEach f ys s').
Proof.
  revert s. induction xs as [|x xs IH]; intros s; simpl; [done|].
  destruct (f x s) as [s1|e]; simpl; [apply IH|done].
Qed.

(** A step that returns the store it was given can be dropped. *)
Lemma forEach_skip {A} (f : A -> Store -> result Store) xs x ys s :
  (forall s1, forEach f xs s = Ok s1 -> f x s1 = Ok s1) ->
  forEach f (xs ++ x :: ys) s = forEach f (xs ++ ys) s.
Proof.
  intros H. rewrite !forEach_app.
  destruct (forEach f xs s) as [s1|e]; simpl; [|done].
  by rewrite H.
Qed.

(** Whatever a step preserves, the loop preserves. *)
Lemma forEach_invariant {A} (P : Store -> Prop)
    (f : A -> Store -> result Store) xs s s' :
  (forall x s1 s2, P s1 -> f x s1 = Ok s2 -> P s2) ->
  P s -> forEach f xs s = Ok s' -> P s'.
Proof.
  intros Hf. revert s. induction xs as [|x xs IH]; intros s HP H; simpl in H.
  - by injection H as <-.
  - destruct (f x s) as [s1|e] eqn:E; simpl in H; [|done].
    eapply IH; [|done]. by eapply Hf.
Qed.

Lemma foldl_invariant {A} (P : Store -> Prop) (f : Store -> A -> Store) xs s :
  (forall x s1, P s1 -> P (f s1 x)) -> P s -> P (foldl f s xs).
Proof.
  intros Hf. revert s. induction xs as [|x xs IH]; intros s HP; simpl; [done|].
  by apply IH, Hf.
Qed.

Section form.
Import Form.
Variable allFieldIds : Store -> list string.

Lemma assignValue_type opts v st : type (assignValue opts v st) = type st.
Proof. unfold assignValue. by destruct (equal opts (value st) v). Qed.

Lemma sameTypes_setField s0 s id f :
  (forall st, type (f st) = type st) ->
  sameTypes s0 s -> sameTypes s0 (setField id f s).
Proof.
  intros Hf H k. rewrite getField_setField. case_decide; subst; [|done].
  by rewrite Hf.
Qed.

(** The bulk setters never change the variant of a cell. *)
Lemma updater_types fuel opts values s s' :
  updater fuel opts values s = Ok s' -> sameTypes s s'.
Proof.
  revert values s s'. induction fuel as [|fuel IH]; intros values s s' H;
    simpl in H; [done|].
  refine (forEach_invariant (sameTypes s) _ _ _ _ _ _ H); [|done].
  intros [id v] s1 s2 H1 Hstep; simpl in Hstep.
  destruct (type (getField s1 id)).
  - injection Hstep as <-. apply sameTypes_setField; [|done].
    apply assignValue_type.
  - destruct (entries v) as [props|e]; simpl in Hstep; [|done].
    apply IH in Hstep. intros k. by rewrite Hstep.
  - by injection Hstep as <-.
Qed.

Lemma initialUpdater_types fuel values s s' :
  initialUpdater fuel values s = Ok s' -> sameTypes s s'.
Proof.
  revert values s s'. induction fuel as [|fuel IH]; intros values s s' H;
    simpl in H; [done|].
  refine (forEach_invariant (sameTypes s) _ _ _ _ _ _ H); [|done].
  intros [id v] s1 s2 H1 Hstep; simpl in Hstep.
  destruct (type (getField s1 id)).
  - injection Hstep as <-. by apply sameTypes_setField.
  - destruct (entries v) as [props|e]; simpl in Hstep; [|done].
    apply IH in Hstep. intros k. by rewrite Hstep.
  - by injection Hstep as <-.
Qed.

(** [onFieldTypeOnly] on a structural node is the identity. *)
Lemma onFieldTypeOnly_structural f st :
  type st ≠ FieldType.field -> onFieldTypeOnly f st = st.
Proof. intros H. unfold onFieldTypeOnly. by case_decide. Qed.

Lemma onFieldTypeOnly_field f st :
  type st = FieldType.field -> onFieldTypeOnly f st = f st.
Proof. intros H. unfold onFieldTypeOnly. by case_decide. Qed.

Lemma onFieldTypeOnly_twice f st :
  (forall st, type (f st) = type st) -> (forall st, f (f st) = f st) ->
  onFieldTypeOnly f (onFieldTypeOnly f st) = onFieldTypeOnly f st.
Proof.
  intros Ht Hi. destruct (decide (type st = FieldType.field)) as [H|H].
  - rewrite (onFieldTypeOnly_field f st H).
    rewrite onFieldTypeOnly_field by (by rewrite Ht). apply Hi.
  - by rewrite !(onFieldTypeOnly_structural f st H).
Qed.

(** The per-field loop, cell by cell, for an updater that keeps the
    variant and that changes nothing when applied again. *)
Lemma getField_onEachField f ids s k :
  (forall st, type (f st) = type st) -> (forall st, f (f st) = f st) ->
  getField (onEachField f ids s) k =
  if decide (k ∈ ids) then onFieldTypeOnly f (getField s k) else getField s k.
Proof.
  intros Ht Hi. unfold onEachField. revert s.
  induction ids as [|id ids IH]; intros s; cbn [foldl].
  - rewrite decide_False; [done|]. apply not_elem_of_nil.
  - rewrite IH, getField_setField.
    destruct (decide (id = k)) as [->|Hne].
    + rewrite (decide_True (P := k ∈ k :: ids)) by left.
      destruct (decide (k ∈ ids)); [|done].
      by apply onFieldTypeOnly_twice.
    + destruct (decide (k ∈ ids)) as [Hin|Hin].
      * rewrite decide_True; [done|by right].
      * rewrite decide_False; [done|].
        intros [->|?]%elem_of_cons; done.
Qed.

Lemma touch_props : (forall st, type (touch st) = type st)
                    /\ (forall st, touch (touch st) = touch st).
Proof. done. Qed.
Lemma untouch_props : (forall st, type (untouch st) = type st)
                      /\ (forall st, untouch (untouch st) = untouch st).
Proof. done. Qed.
Lemma restore_props : (forall st, type (restore st) = type st)
                      /\ (forall st, restore (restore st) = restore st).
Proof. done. Qed.
Lemma recheck_props : (forall st, type (recheck st) = type st)
                      /\ (forall st, recheck (recheck st) = recheck st).
Proof. done. Qed.

Lemma getField_setTouched_structural touched s k :
  type (getField s k) ≠ FieldType.field ->
  getField (setTouched touched s) k = getField s k.
Proof.
  intros H. unfold setTouched.
  apply (foldl_invariant (fun s' => getField s' k = getField s k)); [|done].
  intros [id b] s1 H1; simpl. rewrite getField_setField.
  case_decide; subst; [|done].
  rewrite onFieldTypeOnly_structural; [done|]. by rewrite H1.
Qed.

Lemma getField_onEachField_structural f ids s k :
  type (getField s k) ≠ FieldType.field ->
  getField (onEachField f ids s) k = getField s k.
Proof.
  intros H. unfold onEachField.
  apply (foldl_invariant (fun s' => getField s' k = getField s k)); [|done].
  intros id s1 H1; simpl. rewrite getField_setField.
  case_decide; subst; [|done].
  rewrite onFieldTypeOnly_structural; [done|]. by rewrite H1.
Qed.

End form.

(** C8.  On a plain field [x], [setValues({x: v}, {validate: false})]
    returns, the value of [x] is [v] afterwards and its validation is what
    it was: the cell is the old one with [value] replaced, whatever the
    validator is, and no other cell changes. *)
Theorem setValues_without_validation (fuel : nat) (s : Store) (x : string)
    (v : JsValue) :
  type (getField s x) = FieldType.field ->
  exists s',
    Form.setValues (S fuel) [(x, v)] (mkOptions false alwaysFalse) s = Ok s'
    /\ value (getField s' x) = v
    /\ validation (getField s' x) = validation (getField s x)
    /\ getField s' x = with_value v (getField s x)
    /\ forall k, k ≠ x -> getField s' k = getField s k.
Proof.
  intros Hx. exists (setField x (Form.assignValue (mkOptions false alwaysFalse) v) s).
  split.
  - unfold Form.setValues; simpl. by rewrite Hx.
  - rewrite getField_setField_eq. split_and!; try done.
    intros k Hk. by apply getField_setField_ne.
Qed.

Lemma setValues_without_validation_witness :
  type (getField (register "x" emptyStore) "x") = FieldType.field
  /\ exists s',
    Form.setValues 1 [("x", JNum 1)] (mkOptions false alwaysFalse)
      (register "x" emptyStore) = Ok s'
    /\ value (getField s' "x") = JNum 1
    /\ validation (getField s' "x")
       = validation (getField (register "x" emptyStore) "x")
    /\ getField s' "x" = with_value (JNum 1) (getField (register "x" emptyStore) "x")
    /\ forall k, k ≠ "x" -> getField s' k = getField (register "x" emptyStore) k.
Proof.
  split; [reflexivity|].
  apply (setValues_without_validation 0 (register "x" emptyStore) "x" (JNum 1)).
  reflexivity.
Defined.

Section list_entries.
Import Form.

Lemma updater_list_entry fuel opts id v s :
  type (getField s id) = FieldType.list ->
  updater (S fuel) opts [(id, v)] s = Ok s.
Proof. intros H. simpl. by rewrite H. Qed.

Lemma updater_skip_list fuel opts before id v after s :
  type (getField s id) = FieldType.list ->
  updater fuel opts (before ++ (id, v) :: after) s =
  updater fuel opts (before ++ after) s.
Proof.
  intros H. destruct fuel as [|fuel]; [done|]. simpl.
  apply forEach_skip. intros s1 H1; simpl.
  assert (Hs : sameTypes s s1).
  { apply (updater_types (S fuel) opts before). exact H1. }
  by rewrite Hs, H.
Qed.

Lemma initialUpdater_list_entry fuel id v s :
  type (getField s id) = FieldType.list ->
  initialUpdater (S fuel) [(id, v)] s = Ok s.
Proof. intros H. simpl. by rewrite H. Qed.

Lemma initialUpdater_skip_list fuel before id v after s :
  type (getField s id) = FieldType.list ->
  initialUpdater fuel (before ++ (id, v) :: after) s =
  initialUpdater fuel (before ++ after) s.
Proof.
  intros H. destruct fuel as [|fuel]; [done|]. simpl.
  apply forEach_skip. intros s1 H1; simpl.
  assert (Hs : sameTypes s s1).
  { apply (initialUpdater_types (S fuel) before). exact H1. }
  by rewrite Hs, H.
Qed.

Lemma forEach_Ok_mono {A} (f g : A -> Store -> result Store) xs s s' :
  (forall x s1 s2, f x s1 = Ok s2 -> g x s1 = Ok s2) ->
  forEach f xs s = Ok s' -> forEach g xs s = Ok s'.
Proof.
  intros Hfg. revert s. induction xs as [|x xs IH]; intros s H; simpl in *;
    [done|].
  destruct (f x s) as [s1|e] eqn:E; simpl in H; [|done].
  rewrite (Hfg _ _ _ E). simpl. by apply IH.
Qed.

(** A result does not depend on the fuel it was reached with. *)
Lemma updater_fuel_mono fuel opts values s s' :
  updater fuel opts values s = Ok s' -> updater (S fuel) opts values s = Ok s'.
Proof.
  revert values s s'. induction fuel as [|fuel IH]; intros values s s' H;
    [done|].
  change (updater (S fuel) opts values s) with
    (forEach
       (fun (entry : string * JsValue) s =>
          match type (getField s entry.1) with
          | FieldType.field => Ok (setField entry.1 (assignValue opts entry.2) s)
          | FieldType.map =>
              props ← entries entry.2;
              updater fuel opts (qualify entry.1 props) s
          | FieldType.list => Ok s
          end) values s) in H.
  change (updater (S (S fuel)) opts values s) with
    (forEach
       (fun (entry : string * JsValue) s =>
          match type (getField s entry.1) with
          | FieldType.field => Ok (setField entry.1 (assignValue opts entry.2) s)
          | FieldType.map =>
              props ← entries entry.2;
              updater (S fuel) opts (qualify entry.1 props) s
          | FieldType.list => Ok s
          end) values s).
  refine (forEach_Ok_mono _ _ _ _ _ _ H).
  intros [id v] s1 s2 Hstep; cbn [fst snd] in *.
  destruct (type (getField s1 id)); [done| |done].
  destruct (entries v) as [props|e]; simpl in *; [|done].
  by apply IH.
Qed.

End list_entries.

(** C9.  An entry of [setValues] or [setInitialValues] whose path is a
    list node is ignored: alone it returns the store as it was, without
    throwing, and among other entries the call does exactly what it does
    without it, so the other entries are applied as usual. *)
Theorem list_entry_ignored (fuel : nat) (opts : SetValuesOptions)
    (s : Store) (id : string) (v : JsValue) (before after : Dict JsValue) :
  type (getField s id) = FieldType.list ->
  Form.setValues (S fuel) [(id, v)] opts s = Ok s
  /\ Form.setInitialValues (S fuel) [(id, v)] s = Ok s
  /\ Form.setValues fuel (before ++ (id, v) :: after) opts s
     = Form.setValues fuel (before ++ after) opts s
  /\ Form.setInitialValues fuel (before ++ (id, v) :: after) s
     = Form.setInitialValues fuel (before ++ after) s.
Proof.
  intros H. unfold Form.setValues, Form.setInitialValues. split_and!.
  - by apply updater_list_entry.
  - by apply initialUpdater_list_entry.
  - by apply updater_skip_list.
  - by apply initialUpdater_skip_list.
Qed.

Lemma list_entry_ignored_witness :
  type (getField nameAndTags "tags") = FieldType.list
  /\ Form.setValues 2 [("tags", JObj [("0", JStr "a")])] defaultOptions nameAndTags
     = Ok nameAndTags
  /\ Form.setInitialValues 2 [("tags", JObj [("0", JStr "a")])] nameAndTags
     = Ok nameAndTags
  /\ Form.setValues 1
       ([("name", JStr "x")] ++ ("tags", JObj [("0", JStr "a")]) :: [])
       defaultOptions nameAndTags
     = Form.setValues 1 ([("name", JStr "x")] ++ []) defaultOptions nameAndTags
  /\ Form.setInitialValues 1
       ([("name", JStr "x")] ++ ("tags", JObj [("0", JStr "a")]) :: [])
       nameAndTags
     = Form.setInitialValues 1 ([("name", JStr "x")] ++ []) nameAndTags.
Proof.
  split; [reflexivity|].
  apply (list_entry_ignored 1 defaultOptions nameAndTags "tags"
           (JObj [("0", JStr "a")]) [("name", JStr "x")] []).
  reflexivity.
Defined.

(** The other entries of the same call do reach their cells. *)
Example setValues_beside_list :
  match Form.setValues 1
          [("tags", JObj [("0", JStr "a")]); ("name", JStr "x")]
          defaultOptions nameAndTags with
  | Ok s' => value (getField s' "name") = JStr "x"
             /\ children (getField s' "tags") = []
  | Fail _ => False
  end.
Proof. vm_compute. auto. Qed.

(** A map entry descends into the qualified names of its properties. *)
Example setValues_through_map :
  match Form.setValues 2 [("a", JObj [("b", JNum 7)])] defaultOptions
          (register "a.b" emptyStore) with
  | Ok s' => value (getField s' "a.b") = JNum 7
  | Fail _ => False
  end.
Proof. vm_compute. auto. Qed.

(** C10.  [setTouched], [resetTouched], [setAllToTouched], [reset] and
    [revalidate] leave every cell that is a map or a list exactly as it
    was. *)
Theorem bulk_operations_keep_structural_nodes
    (allFieldIds : Store -> list string) (touched : Dict bool)
    (ids : list string) (s : Store) (k : string) :
  type (getField s k) ≠ FieldType.field ->
  getField (Form.setTouched touched s) k = getField s k
  /\ getField (Form.resetTouched allFieldIds s) k = getField s k
  /\ getField (Form.setAllToTouched allFieldIds s) k = getField s k
  /\ getField (Form.reset allFieldIds s) k = getField s k
  /\ getField (Form.revalidate allFieldIds ids s) k = getField s k.
Proof.
  intros H. split_and!.
  - by apply getField_setTouched_structural.
  - by apply getField_onEachField_structural.
  - by apply getField_onEachField_structural.
  - by apply getField_onEachField_structural.
  - by apply getField_onEachField_structural.
Qed.

Lemma bulk_operations_keep_structural_nodes_witness :
  type (getField nameAndTags "tags") ≠ FieldType.field
  /\ getField (Form.setTouched [("tags", true)] nameAndTags) "tags"
     = getField nameAndTags "tags"
  /\ getField (Form.resetTouched (fun _ => ["name"; "tags"]) nameAndTags) "tags"
     = getField nameAndTags "tags"
  /\ getField (Form.setAllToTouched (fun _ => ["name"; "tags"]) nameAndTags) "tags"
     = getField nameAndTags "tags"
  /\ getField (Form.reset (fun _ => ["name"; "tags"]) nameAndTags) "tags"
     = getField nameAndTags "tags"
  /\ getField (Form.revalidate (fun _ => ["name"; "tags"]) ["tags"] nameAndTags)
       "tags"
     = getField nameAndTags "tags".
Proof.
  assert (H : type (getField nameAndTags "tags") ≠ FieldType.field)
    by (vm_compute; discriminate).
  split; [exact H|].
  exact (bulk_operations_keep_structural_nodes (fun _ => ["name"; "tags"])
           [("tags", true)] ["tags"] nameAndTags "tags" H).
Defined.

(** C4.  After [reset], every leaf, that is every id listed by
    [$allFieldIds] whose cell is a plain field, has its value equal to
    its initial value, is neither touched nor touched after submit, and
    carries the validation its validator gives for the initial value;
    the initial value and the validator are those it had. *)
Theorem reset_restores_leaves (allFieldIds : Store -> list string)
    (s : Store) (id : string) :
  id ∈ allFieldIds s -> type (getField s id) = FieldType.field ->
  let leaf := getField (Form.reset allFieldIds s) id in
  value leaf = initialValue leaf
  /\ touched leaf = false
  /\ touchedAfterSubmit leaf = false
  /\ validation leaf = validator leaf (initialValue leaf)
  /\ initialValue leaf = initialValue (getField s id)
  /\ validator leaf = validator (getField s id).
Proof.
  intros Hin Ht leaf. unfold leaf, Form.reset.
  destruct restore_props as [Hkeep Hagain].
  rewrite getField_onEachField by done.
  rewrite decide_True by done.
  rewrite onFieldTypeOnly_field by done. done.
Qed.

Lemma reset_restores_leaves_witness :
  "name" ∈ allLeaves 2 edited
  /\ type (getField edited "name") = FieldType.field
  /\ let leaf := getField (Form.reset (allLeaves 2) edited) "name" in
     value leaf = initialValue leaf
     /\ touched leaf = false
     /\ touchedAfterSubmit leaf = false
     /\ validation leaf = validator leaf (initialValue leaf)
     /\ initialValue leaf = initialValue (getField edited "name")
     /\ validator leaf = validator (getField edited "name").
Proof.
  assert (Hin : "name" ∈ allLeaves 2 edited)
    by (apply (bool_decide_unpack _); vm_compute; exact I).
  split; [exact Hin|]. split; [reflexivity|].
  exact (reset_restores_leaves (allLeaves 2) edited "name" Hin eq_refl).
Defined.

Example reset_edited :
  value (getField (Form.reset (allLeaves 2) edited) "name") = JStr ""
  /\ validation (getField (Form.reset (allLeaves 2) edited) "name")
     = mkValidation false false.
Proof. vm_compute. auto. Qed.

(** C3.  When the validity flag that the configuration selects is false
    in the bag, [submit] invokes the invalid-submit callback once, with
    the bag, and no other callback (never the regular one), and every
    leaf, that is every id listed by [$allFieldIds] whose cell is a plain
    field, is touched and touched after submit in the store it leaves. *)
Theorem submit_invalid (allFieldIds : Store -> list string)
    (getBag : Store -> list JsValue -> Bag) (isValidProp : IsValidProp)
    (args : list JsValue) (s : Store) :
  selectValid isValidProp (bag_validation (getBag s args)) = false ->
  let r := Form.submit allFieldIds getBag isValidProp args s in
  r.2 = [onSubmitInvalid (getBag s args)]
  /\ (forall bag, onSubmit bag ∉ r.2)
  /\ forall id, id ∈ allFieldIds s -> type (getField s id) = FieldType.field ->
       touched (getField r.1 id) = true
       /\ touchedAfterSubmit (getField r.1 id) = true.
Proof.
  intros Hinvalid r. unfold r, Form.submit. rewrite Hinvalid. simpl.
  split_and!; [done| |].
  - intros bag [H|H]%elem_of_cons; [done|]. by apply elem_of_nil in H.
  - intros id Hin Ht. unfold Form.setAllToTouched.
    destruct touch_props as [Hkeep Hagain].
    rewrite getField_onEachField by done.
    rewrite decide_True by done.
    by rewrite onFieldTypeOnly_field.
Qed.

Lemma submit_invalid_witness :
  selectValid isValidKey (bag_validation (bagOf 2 blank [])) = false
  /\ let r := Form.submit (allLeaves 2) (bagOf 2) isValidKey [] blank in
     r.2 = [onSubmitInvalid (bagOf 2 blank [])]
     /\ (forall bag, onSubmit bag ∉ r.2)
     /\ forall id, id ∈ allLeaves 2 blank ->
          type (getField blank id) = FieldType.field ->
          touched (getField r.1 id) = true
          /\ touchedAfterSubmit (getField r.1 id) = true.
Proof.
  split; [reflexivity|].
  exact (submit_invalid (allLeaves 2) (bagOf 2) isValidKey [] blank eq_refl).
Defined.

Example submit_blank_touches_name :
  touched (getField (Form.submit (allLeaves 2) (bagOf 2) isValidKey [] blank).1
             "name") = true.
Proof. vm_compute. reflexivity. Qed.

(** With a valid form the regular callback is the one invoked. *)
Example submit_edited :
  (Form.submit (allLeaves 2) (bagOf 2) isValidKey [] edited).2
  = [onSubmit (bagOf 2 edited [])].
Proof. reflexivity. Qed.

(** ** The list hook *)

Lemma at_index_nat {T} (xs : list T) (i : nat) : at_index xs (Z.of_nat i) = xs !! i.
Proof.
  unfold at_index. rewrite decide_True by lia. by rewrite Nat2Z.id.
Qed.

Lemma at_index_negative {T} (xs : list T) (i : Z) : (i < 0)%Z -> at_index xs i = None.
Proof. intros H. unfold at_index. rewrite decide_False; [done|lia]. Qed.

Lemma asStrings_Some cs : asStrings (Some <$> cs) = Ok cs.
Proof. unfold asStrings. by rewrite mapM_fmap_Some. Qed.

(** Inside the array, the [map] of [swap] writes each of the two children
    at the other's index. *)
Lemma swapChildren_valid cs (a b : nat) xa xb :
  cs !! a = Some xa -> cs !! b = Some xb ->
  UseList.swapChildren (Z.of_nat a) (Z.of_nat b) cs
  = Some <$> <[a := xb]> (<[b := xa]> cs).
Proof.
  intros Ha Hb. unfold UseList.swapChildren. rewrite !at_index_nat, Ha, Hb.
  apply list_eq. intros i.
  rewrite list_lookup_imap, list_lookup_fmap.
  destruct (cs !! i) as [x|] eqn:Hi; simpl.
  - pose proof (lookup_lt_Some _ _ _ Hi) as Hlt.
    destruct (decide (i = a)) as [->|Hia].
    + rewrite decide_True by done.
      rewrite list_lookup_insert_eq by (by rewrite length_insert). done.
    + rewrite decide_False by lia.
      rewrite list_lookup_insert_ne by done.
      destruct (decide (i = b)) as [->|Hib].
      * rewrite decide_True by done. by rewrite list_lookup_insert_eq.
      * rewrite decide_False by lia.
        by rewrite list_lookup_insert_ne, Hi.
  - apply lookup_ge_None in Hi.
    rewrite (proj2 (lookup_ge_None _ _)); [done|].
    by rewrite !length_insert.
Qed.

Lemma exchange_lookup (cs : list string) (a b i : nat) xa xb :
  cs !! a = Some xa -> cs !! b = Some xb ->
  <[a := xb]> (<[b := xa]> cs) !! i =
  if decide (i = a) then cs !! b
  else if decide (i = b) then cs !! a else cs !! i.
Proof.
  intros Ha Hb.
  pose proof (lookup_lt_Some _ _ _ Ha). pose proof (lookup_lt_Some _ _ _ Hb).
  destruct (decide (i = a)) as [->|Hia].
  - rewrite list_lookup_insert_eq by (by rewrite length_insert). done.
  - rewrite list_lookup_insert_ne by done.
    destruct (decide (i = b)) as [->|Hib].
    + by rewrite list_lookup_insert_eq.
    + by rewrite list_lookup_insert_ne.
Qed.

Lemma exchange_twice (cs : list string) (a b : nat) xa xb :
  cs !! a = Some xa -> cs !! b = Some xb ->
  <[a := xa]> (<[b := xb]> (<[a := xb]> (<[b := xa]> cs))) = cs.
Proof.
  intros Ha Hb. apply list_eq. intros i.
  assert (H1a : <[a := xb]> (<[b := xa]> cs) !! a = Some xb).
  { by rewrite (exchange_lookup cs a b a xa xb), decide_True. }
  assert (H1b : <[a := xb]> (<[b := xa]> cs) !! b = Some xa).
  { rewrite (exchange_lookup cs a b b xa xb) by done.
    destruct (decide (b = a)) as [->|]; [congruence|].
    by rewrite decide_True. }
  rewrite (exchange_lookup _ a b i xb xa) by done.
  rewrite H1a, H1b.
  destruct (decide (i = a)) as [->|Hia]; [done|].
  destruct (decide (i = b)) as [->|Hib]; [done|].
  rewrite (exchange_lookup cs a b i xa xb) by done.
  by rewrite !decide_False.
Qed.

Section list_hook.
Variable name : string.

Lemma swap_valid st (a b : nat) xa xb :
  children (getField (store st) name) !! a = Some xa ->
  children (getField (store st) name) !! b = Some xb ->
  UseList.swap name (Z.of_nat a) (Z.of_nat b) st
  = Ok (UseList.setFieldState name
          (with_children
             (<[a := xb]> (<[b := xa]> (children (getField (store st) name)))))
          st).
Proof.
  intros Ha Hb. unfold UseList.swap.
  by rewrite (swapChildren_valid _ a b xa xb), asStrings_Some.
Qed.

End list_hook.

(** C7.  For valid indices [a] and [b] into the children of a list node,
    [swap(a, b)] returns, puts each of the two children at the other's
    index and leaves every other index, every other property of the list
    node, every other cell (the children's among them) and the pool as
    they were; a second [swap(a, b)] gives back the original children, and
    with them the original state of every cell. *)
Theorem swap_involution (name : string) (st : ListState) (a b : nat) :
  let cs := children (getField (store st) name) in
  a < length cs -> b < length cs ->
  exists st1 st2,
    UseList.swap name (Z.of_nat a) (Z.of_nat b) st = Ok st1
    /\ UseList.swap name (Z.of_nat a) (Z.of_nat b) st1 = Ok st2
    /\ (forall i, children (getField (store st1) name) !! i =
                  if decide (i = a) then cs !! b
                  else if decide (i = b) then cs !! a else cs !! i)
    /\ getField (store st1) name
       = with_children (children (getField (store st1) name))
           (getField (store st) name)
    /\ (forall k, k ≠ name -> getField (store st1) k = getField (store st) k)
    /\ namesToReuse st1 = namesToReuse st
    /\ children (getField (store st2) name) = cs
    /\ (forall k, getField (store st2) k = getField (store st) k)
    /\ namesToReuse st2 = namesToReuse st.
Proof.
  intros cs Ha Hb.
  destruct (lookup_lt_is_Some_2 cs a Ha) as [xa Hxa].
  destruct (lookup_lt_is_Some_2 cs b Hb) as [xb Hxb].
  set (cs1 := <[a := xb]> (<[b := xa]> cs)).
  set (st1 := UseList.setFieldState name (with_children cs1) st).
  assert (Hcs1 : children (getField (store st1) name) = cs1).
  { unfold st1, UseList.setFieldState; simpl. by rewrite getField_setField_eq. }
  assert (H1a : cs1 !! a = Some xb).
  { unfold cs1. by rewrite (exchange_lookup cs a b a xa xb), decide_True. }
  assert (H1b : cs1 !! b = Some xa).
  { unfold cs1. rewrite (exchange_lookup cs a b b xa xb) by done.
    destruct (decide (b = a)) as [->|]; [congruence|]. by rewrite decide_True. }
  exists st1, (UseList.setFieldState name (with_children cs) st1).
  split_and!.
  - by apply swap_valid.
  - rewrite (swap_valid name st1 a b xb xa) by (by rewrite Hcs1).
    rewrite Hcs1. unfold cs1. by rewrite exchange_twice.
  - intros i. rewrite Hcs1. by apply exchange_lookup.
  - unfold st1, UseList.setFieldState; simpl. by rewrite getField_setField_eq.
  - intros k Hk. unfold st1, UseList.setFieldState; simpl.
    by rewrite getField_setField_ne.
  - done.
  - unfold UseList.setFieldState; simpl. by rewrite getField_setField_eq.
  - intros k. unfold st1, UseList.setFieldState; simpl.
    rewrite !getField_setField. case_decide; [subst|done].
    rewrite decide_True by done. unfold cs.
    by destruct (getField (store st) k).
  - done.
Qed.

Lemma swap_involution_witness :
  0 < length (children (getField (store twoRows) "tags"))
  /\ 1 < length (children (getField (store twoRows) "tags"))
  /\ exists st1 st2,
       UseList.swap "tags" 0 1 twoRows = Ok st1
       /\ UseList.swap "tags" 0 1 st1 = Ok st2
       /\ children (getField (store st1) "tags") !! 0 = Some "tags.u2"
       /\ children (getField (store st1) "tags") !! 1 = Some "tags.u1"
       /\ children (getField (store st2) "tags") = ["tags.u1"; "tags.u2"].
Proof.
  assert (H0 : 0 < length (children (getField (store twoRows) "tags")))
    by (vm_compute; lia).
  assert (H1 : 1 < length (children (getField (store twoRows) "tags")))
    by (vm_compute; lia).
  split; [exact H0|]. split; [exact H1|].
  destruct (swap_involution "tags" twoRows 0 1 H0 H1)
    as (st1 & st2 & E1 & E2 & Hx & _ & _ & _ & Hback & _).
  exists st1, st2.
  split; [exact E1|]. split; [exact E2|].
  split; [exact (Hx 0)|]. split; [exact (Hx 1)|]. exact Hback.
Defined.

(** Outside the array the [map] of [swap] writes [undefined]. *)
Example swap_out_of_range :
  UseList.swap "tags" 0 5 twoRows = Fail NotAString
  /\ UseList.swapChildren 0 5 ["tags.u1"; "tags.u2"] = [None; Some "tags.u2"].
Proof. vm_compute. auto. Qed.

Example move_first_to_last :
  (UseList.moveChildren 0 1 ["r0"; "r1"; "r2"]) = [Some "r1"; Some "r0"; Some "r2"]
  /\ UseList.moveChildren 1 1 ["r0"; "r1"; "r2"] = [Some "r0"; Some "r1"; Some "r2"].
Proof. vm_compute. auto. Qed.

(** *** Recycling of released ids *)

Section recycler.
Variable name : string.

(** With a non-empty released id at the head of the pool,
    [generateNewName] takes it out of the pool and builds the name from
    it; [uid()] plays no role. *)
Lemma generateNewName_reuses fresh r pool :
  r ≠ EmptyString ->
  UseList.generateNewName name fresh (r :: pool)
  = (name +:+ "." +:+ r, setDelete r (r :: pool)).
Proof.
  intros H. unfold UseList.generateNewName; simpl.
  destruct r; [done|reflexivity].
Qed.

Lemma generateNewName_fresh fresh :
  UseList.generateNewName name fresh [] = (name +:+ "." +:+ fresh, []).
Proof. reflexivity. Qed.

(** An empty released id is taken out of the pool and dropped: the name
    is built from [uid()]. *)
Lemma generateNewName_drops_empty fresh pool :
  UseList.generateNewName name fresh (EmptyString :: pool)
  = (name +:+ "." +:+ fresh, setDelete EmptyString (EmptyString :: pool)).
Proof. reflexivity. Qed.

Lemma children_add fresh st :
  children (getField (store (UseList.add name fresh st).2) name)
  = children (getField (store st) name)
    ++ [(UseList.add name fresh st).1].
Proof.
  unfold UseList.add, UseList.setFieldState; simpl.
  by rewrite getField_setField_eq.
Qed.

(** [add], [remove(index)], [add] on a list whose pool is empty: the
    second [add] names its child after the last segment of the removed
    child, when that segment is not the empty string, and the pool is
    empty again. *)
Lemma add_remove_add_reuses fresh1 fresh2 st (index : nat) removed :
  namesToReuse st = [] ->
  let st1 := (UseList.add name fresh1 st).2 in
  children (getField (store st1) name) !! index = Some removed ->
  UseList.lastSegment removed ≠ EmptyString ->
  let st2 := UseList.remove name (Z.of_nat index) st1 in
  (UseList.add name fresh2 st2).1 = name +:+ "." +:+ UseList.lastSegment removed
  /\ namesToReuse (UseList.add name fresh2 st2).2 = [].
Proof.
  intros Hpool st1 Hidx Hseg st2.
  assert (Hp1 : namesToReuse st1 = []).
  { unfold st1, UseList.add, UseList.generateNewName; simpl. by rewrite Hpool. }
  assert (Hp2 : namesToReuse st2 = [UseList.lastSegment removed]).
  { unfold st2, UseList.remove, UseList.setFieldState.
    cbn [namesToReuse store]. rewrite at_index_nat, Hidx, Hp1.
    reflexivity. }
  unfold UseList.add, UseList.setFieldState. cbn [fst snd namesToReuse].
  rewrite Hp2.
  rewrite generateNewName_reuses by done. cbn [fst snd]. split; [done|].
  unfold setDelete. rewrite filter_cons_False by (intros H; by apply H).
  done.
Qed.

End recycler.

(** The empty id.  On the node [tags] with the child ["tags."],
    [add(); remove(0); add()] releases the last segment of that name, the
    empty string, and the second [add] takes it out of the pool and names
    its child after the fresh [uid()].  No call of the list hook and no
    generated id gives a child such a name. *)
Example empty_released_id_not_reused :
  let st1 := (UseList.add "tags" "u1" trailingDot).2 in
  let st2 := UseList.remove "tags" 0 st1 in
  children (getField (store st1) "tags") = ["tags."; "tags.u1"]
  /\ namesToReuse st2 = [""]
  /\ (UseList.add "tags" "u2" st2).1 = "tags.u2"
  /\ (UseList.add "tags" "u2" st2).1 ≠ "tags."
  /\ namesToReuse (UseList.add "tags" "u2" st2).2 = [].
Proof. vm_compute. split_and!; done. Qed.

(** The same calls on a list of generated rows do reuse the id. *)
Example released_id_reused :
  let st2 := UseList.remove "tags" 0 twoRows in
  namesToReuse st2 = ["u1"]
  /\ (UseList.add "tags" "u3" st2).1 = "tags.u1"
  /\ children (getField (store (UseList.add "tags" "u3" st2).2) "tags")
     = ["tags.u2"; "tags.u1"].
Proof. vm_compute. auto. Qed.

(** ** Variants along the operations *)

Lemma sameTypes_refl s : sameTypes s s.
Proof. done. Qed.












Section registration_variants.
Import Registration.





End registration_variants.




(** * Further properties *)

(** ** Registration, at any depth and for any batch *)

Lemma append_assoc (a b c : string) : (a +:+ b) +:+ c = a +:+ b +:+ c.
Proof.
  induction a as [|x a IH]; [reflexivity|].
  change (String x ((a +:+ b) +:+ c) = String x (a +:+ b +:+ c)).
  by f_equal.
Qed.

Lemma join_snoc xs y :
  xs ≠ [] -> join (xs ++ [y]) = join xs +:+ "." +:+ y.
Proof.
  induction xs as [|x xs IH]; [done|]. intros _.
  destruct xs as [|x' xs]; [done|].
  change (join ((x :: x' :: xs) ++ [y]))
    with (x +:+ "." +:+ join ((x' :: xs) ++ [y])).
  rewrite IH by done. rewrite join_cons.
  by rewrite !append_assoc.
Qed.

Lemma nestedName_S i ns x :
  0 < i -> ns !! i = Some x ->
  nestedName (S i) ns = nestedName i ns +:+ "." +:+ x.
Proof.
  intros Hi Hx. unfold nestedName, take.
  rewrite (take_S_r _ _ _ Hx). apply join_snoc.
  pose proof (lookup_lt_Some _ _ _ Hx).
  destruct ns; simpl in *; [lia|]. destruct i; [lia|done].
Qed.

Lemma nestedName_length_lt i j ns :
  0 < i -> i < j -> j <= length ns ->
  String.length (nestedName i ns) < String.length (nestedName j ns).
Proof.
  intros Hi Hij Hj. induction Hij as [|j Hij IH].
  - destruct (lookup_lt_is_Some_2 ns i) as [x Hx]; [lia|].
    rewrite (nestedName_S i ns x) by done.
    rewrite !length_append. simpl. lia.
  - destruct (lookup_lt_is_Some_2 ns j) as [x Hx]; [lia|].
    rewrite (nestedName_S j ns x) by (lia || done).
    rewrite !length_append. simpl. specialize (IH ltac:(lia)). lia.
Qed.

Lemma nestedName_all ns : nestedName (length ns) ns = join ns.
Proof. unfold nestedName, take. by rewrite firstn_all. Qed.

(** For the segments of a name, the nested name of full depth is the
    name itself, the parent path is the nested name one level up, and the
    nested names of two different depths (from 1 on) are different
    paths. *)
Theorem nestedName_paths (name : string) (i j : nat) :
  0 < i -> i < j -> j <= length (split name) ->
  nestedName (length (split name)) (split name) = name
  /\ parentOf name = nestedName (length (split name) - 1) (split name)
  /\ nestedName i (split name) ≠ nestedName j (split name).
Proof.
  intros Hi Hij Hj. split_and!.
  - by rewrite nestedName_all, join_split.
  - unfold parentOf, dropRight, nestedName, take.
    by rewrite decide_True by lia.
  - intros H. apply (f_equal String.length) in H.
    pose proof (nestedName_length_lt i j (split name) Hi Hij Hj). lia.
Qed.

Lemma nestedName_paths_witness :
  0 < 1 /\ 1 < 3 /\ 3 <= length (split "a.b.c")
  /\ nestedName (length (split "a.b.c")) (split "a.b.c") = "a.b.c"
  /\ parentOf "a.b.c" = nestedName (length (split "a.b.c") - 1) (split "a.b.c")
  /\ nestedName 1 (split "a.b.c") ≠ nestedName 3 (split "a.b.c").
Proof.
  assert (H1 : 0 < 1) by lia. assert (H2 : 1 < 3) by lia.
  assert (H3 : 3 <= length (split "a.b.c")) by (simpl; lia).
  split; [exact H1|]. split; [exact H2|]. split; [exact H3|].
  exact (nestedName_paths "a.b.c" 1 3 H1 H2 H3).
Defined.

Section registration_batches.
Import Registration.

Lemma linked_getField s p c :
  linked s p c ->
  type (getField s p) ≠ FieldType.field /\ c ∈ children (getField s p).
Proof. intros (st & Hst & Ht & Hc). by rewrite (getField_lookup _ _ _ Hst). Qed.

Lemma sameData_refl st : sameData st st.
Proof. by repeat split. Qed.

Lemma sameData_trans st1 st2 st3 :
  sameData st1 st2 -> sameData st2 st3 -> sameData st1 st3.
Proof.
  intros (?&?&?&?&?&?) (?&?&?&?&?&?). repeat split; congruence.
Qed.

Lemma onlyGrows_refl s : onlyGrows s s.
Proof. intros k. split; [apply sameData_refl|done]. Qed.

Lemma onlyGrows_trans s1 s2 s3 :
  onlyGrows s1 s2 -> onlyGrows s2 s3 -> onlyGrows s1 s3.
Proof.
  intros H12 H23 k. destruct (H12 k) as [D12 P12], (H23 k) as [D23 P23].
  split; [by eapply sameData_trans|by etrans].
Qed.

Lemma link_coerce_sameData c st : sameData st (link c (coerce st)).
Proof.
  unfold link, coerce. repeat case_decide; by repeat split.
Qed.

Lemma link_coerce_prefix c st :
  children st `prefix_of` children (link c (coerce st)).
Proof.
  unfold link. case_decide; simpl.
  - unfold addOnlyIfUnique. assert (children (coerce st) = children st) as ->
      by (unfold coerce; by case_decide).
    case_decide; [done|]. by eexists.
  - unfold coerce. by case_decide.
Qed.

Lemma onlyGrows_addNode ns s i : onlyGrows s (addNode ns s i).
Proof.
  intros k. rewrite getField_addNode. case_decide; [|apply onlyGrows_refl].
  split; [apply link_coerce_sameData|apply link_coerce_prefix].
Qed.

Lemma onlyGrows_addNodes ns s : onlyGrows s (addNodes ns s).
Proof.
  unfold addNodes. apply (foldl_invariant (onlyGrows s)); [|apply onlyGrows_refl].
  intros i s1 H1. eapply onlyGrows_trans; [exact H1|apply onlyGrows_addNode].
Qed.

Lemma onlyGrows_add names s : onlyGrows s (add names s).
Proof.
  rewrite add_unfold. intros k. rewrite getField_setForm. revert k.
  apply (foldl_invariant (onlyGrows s)); [|apply onlyGrows_refl].
  intros n s1 H1. eapply onlyGrows_trans; [exact H1|apply onlyGrows_addNodes].
Qed.

Lemma link_coerce_NoDup c st :
  NoDup (children st) -> NoDup (children (link c (coerce st))).
Proof.
  intros H. assert (children (coerce st) = children st) as E
      by (unfold coerce; by case_decide).
  unfold link. case_decide; simpl; rewrite E; [|done].
  by apply addOnlyIfUnique_NoDup.
Qed.

Lemma form_add names s :
  form (add names s) = addToForm (topLevel <$> names) (form s).
Proof.
  rewrite add_unfold. unfold setForm; cbn [form].
  by rewrite form_foldl_addNodes.
Qed.

End registration_batches.

(** X1.  After a batch is registered, every name of the batch is wired
    at every depth: each proper prefix of the name is a structural node
    (a map or a list) whose children contain the next longer prefix, and
    the name's first segment is among [fieldIds]. *)
Theorem add_wires_every_name (names : list string) (s : Store)
    (name : string) (i : nat) :
  name ∈ names -> i < length (split name) - 1 ->
  let s' := Registration.add names s in
  type (getField s' (nestedName (i + 1) (split name))) ≠ FieldType.field
  /\ nestedName (i + 2) (split name)
       ∈ children (getField s' (nestedName (i + 1) (split name)))
  /\ topLevel name ∈ fieldIds (form s').
Proof.
  intros Hin Hi s'. unfold s'.
  assert (Hw : linked (Registration.add names s)
                 (nestedName (i + 1) (split name))
                 (nestedName (i + 2) (split name))).
  { rewrite add_unfold. apply linked_setForm.
    by apply foldl_addNodes_wired. }
  apply linked_getField in Hw as [Ht Hc]. split_and!; [done|done|].
  rewrite form_add. apply addToForm_elem.
  apply list_elem_of_fmap. by exists name.
Qed.

Lemma add_wires_every_name_witness :
  "p.q.r.s" ∈ ["x"; "p.q.r.s"] /\ 2 < length (split "p.q.r.s") - 1
  /\ let s' := Registration.add ["x"; "p.q.r.s"] emptyStore in
     type (getField s' (nestedName (2 + 1) (split "p.q.r.s"))) ≠ FieldType.field
     /\ nestedName (2 + 2) (split "p.q.r.s")
          ∈ children (getField s' (nestedName (2 + 1) (split "p.q.r.s")))
     /\ topLevel "p.q.r.s" ∈ fieldIds (form s').
Proof.
  assert (H1 : "p.q.r.s" ∈ ["x"; "p.q.r.s"])
    by (apply (bool_decide_unpack _); vm_compute; exact I).
  assert (H2 : 2 < length (split "p.q.r.s") - 1) by (simpl; lia).
  split; [exact H1|]. split; [exact H2|].
  exact (add_wires_every_name ["x"; "p.q.r.s"] emptyStore "p.q.r.s" 2 H1 H2).
Defined.

(** X2.  Registration is structural only: in every cell the value, the
    initial value, both touched flags, the validator and the validation
    are what they were, the children it had are still there in the same
    order with new ones after them, and the ids [fieldIds] held are still
    its first ids, with the submission untouched. *)
Theorem add_structural_only (names : list string) (s : Store) (k : string) :
  let s' := Registration.add names s in
  sameData (getField s k) (getField s' k)
  /\ children (getField s k) `prefix_of` children (getField s' k)
  /\ fieldIds (form s) `prefix_of` fieldIds (form s')
  /\ submission (form s') = submission (form s).
Proof.
  intros s'. unfold s'. destruct (onlyGrows_add names s k) as [Hd Hp].
  split_and!; [done|done| |].
  - rewrite form_add. unfold Registration.addToForm; simpl. by eexists.
  - by rewrite form_add.
Qed.

(** X3.  Registration keeps the children of a node free of duplicates. *)
Theorem add_children_NoDup (names : list string) (s : Store) (k : string) :
  NoDup (children (getField s k)) ->
  NoDup (children (getField (Registration.add names s) k)).
Proof.
  intros H. rewrite add_unfold, getField_setForm. revert H.
  apply (foldl_invariant
           (fun s' => NoDup (children (getField s k)) ->
                      NoDup (children (getField s' k)))); [|done].
  intros n s1 H1 H. specialize (H1 H). revert H1.
  unfold Registration.addNodes.
  apply (foldl_invariant
           (fun s' => NoDup (children (getField s1 k)) ->
                      NoDup (children (getField s' k)))); [|done].
  intros i s2 H2 H0. specialize (H2 H0).
  rewrite getField_addNode. case_decide; [|done].
  by apply link_coerce_NoDup.
Qed.

Lemma add_children_NoDup_witness :
  NoDup (children (getField (register "a.b" emptyStore) "a"))
  /\ NoDup (children (getField
                        (Registration.add ["a.b"; "a.c"; "a.b"]
                           (register "a.b" emptyStore)) "a")).
Proof.
  assert (H : NoDup (children (getField (register "a.b" emptyStore) "a")))
    by (apply (bool_decide_unpack _); vm_compute; exact I).
  split; [exact H|].
  exact (add_children_NoDup ["a.b"; "a.c"; "a.b"] (register "a.b" emptyStore)
           "a" H).
Defined.

(** X4.  After a batch is registered [fieldIds] is free of duplicates
    exactly when it was before and the batch does not name the same new
    top-level id twice: the ids of a batch are compared with the ids
    registered before it, not with each other. *)
Theorem add_fieldIds_NoDup_iff (names : list string) (s : Store) :
  NoDup (fieldIds (form (Registration.add names s)))
  <-> NoDup (fieldIds (form s))
      /\ NoDup (filter (fun id => id ∉ fieldIds (form s)) (topLevel <$> names)).
Proof.
  rewrite form_add. unfold Registration.addToForm; simpl.
  rewrite NoDup_app. split.
  - by intros (H1 & _ & H3).
  - intros [H1 H3]. split_and!; [done| |done].
    intros x Hx Hf. apply list_elem_of_filter in Hf as [Hn _]. done.
Qed.

(** ** Unregistration *)

Lemma filter_ne_absent (x : string) (xs : list string) :
  x ∉ xs -> filter (fun y => y ≠ x) xs = xs.
Proof.
  induction xs as [|y xs IH]; intros H; [done|].
  apply not_elem_of_cons in H as [Hne Hin].
  rewrite filter_cons_True by done. by rewrite IH.
Qed.

Lemma filter_notin_singleton (x : string) (xs : list string) :
  filter (fun y => y ∉ [x]) xs = filter (fun y => y ≠ x) xs.
Proof.
  apply list_filter_iff. intros y. rewrite list_elem_of_singleton. done.
Qed.

Lemma with_children_same st : with_children (children st) st = st.
Proof. by destruct st. Qed.

Lemma with_fieldIds_same st : with_fieldIds (fieldIds st) st = st.
Proof. by destruct st. Qed.

Lemma form_unregister name s :
  form (unregister name s)
  = with_fieldIds (filter (fun id => id ≠ name) (fieldIds (form s))) (form s).
Proof.
  unfold unregister, Registration.remove; simpl.
  unfold Registration.detach. rewrite <- filter_notin_singleton.
  by destruct (Registration.hasDot name).
Qed.

Lemma getField_unregister name s k :
  getField (unregister name s) k =
  if decide (Registration.hasDot name = true /\ parentOf name = k)
  then with_children
         (filter (fun id => id ≠ name) (children (getField s k))) (getField s k)
  else getField s k.
Proof.
  unfold unregister, Registration.remove; simpl. unfold Registration.detach.
  destruct (Registration.hasDot name) eqn:E.
  - fold (parentOf name). rewrite getField_setField.
    destruct (decide (parentOf name = k)) as [<-|Hne].
    + by rewrite decide_True.
    + rewrite decide_False by (by intros [_ ?]). done.
  - rewrite decide_False by (by intros [? _]). done.
Qed.

(** X5.  Unregistering a name that is neither among [fieldIds] nor among
    the children of its parent changes nothing that can be read: the
    form-level node and every cell are what they were. *)
Theorem unregister_unknown (name : string) (s : Store) :
  name ∉ fieldIds (form s) ->
  name ∉ children (getField s (parentOf name)) ->
  form (unregister name s) = form s
  /\ forall k, getField (unregister name s) k = getField s k.
Proof.
  intros Hids Hcs. split.
  - rewrite form_unregister, filter_ne_absent by done.
    apply with_fieldIds_same.
  - intros k. rewrite getField_unregister. case_decide as H; [|done].
    destruct H as [_ <-]. rewrite filter_ne_absent by done.
    apply with_children_same.
Qed.

Lemma unregister_unknown_witness :
  ("tags.zz" ∉ fieldIds (form nameAndTags))
  /\ ("tags.zz" ∉ children (getField nameAndTags (parentOf "tags.zz")))
  /\ form (unregister "tags.zz" nameAndTags) = form nameAndTags
  /\ forall k, getField (unregister "tags.zz" nameAndTags) k
               = getField nameAndTags k.
Proof.
  assert (H1 : "tags.zz" ∉ fieldIds (form nameAndTags))
    by (apply (bool_decide_unpack _); vm_compute; exact I).
  assert (H2 : "tags.zz" ∉ children (getField nameAndTags (parentOf "tags.zz")))
    by (apply (bool_decide_unpack _); vm_compute; exact I).
  split; [exact H1|]. split; [exact H2|].
  exact (unregister_unknown "tags.zz" nameAndTags H1 H2).
Defined.

(** X6.  For a name without a dot that was not registered, registering it
    and then unregistering it gives back the very store: no cell was
    written and [fieldIds] is what it was. *)
Theorem register_unregister_top_level (name : string) (s : Store) :
  dotfree name = true -> name ∉ fieldIds (form s) ->
  unregister name (register name s) = s.
Proof.
  intros Hd Hn.
  assert (Hreg : register name s
                 = setForm (with_fieldIds (fieldIds (form s) ++ [name])) s).
  { rewrite register_unfold. rewrite split_dotfree by done.
    unfold Registration.addNodes; simpl. unfold topLevel.
    rewrite split_dotfree by done. simpl.
    unfold setForm, Registration.addToForm. f_equal. f_equal.
    rewrite filter_cons_True by done. by rewrite filter_nil. }
  rewrite Hreg. unfold unregister, Registration.remove; simpl.
  unfold Registration.detach, Registration.hasDot. rewrite Hd; simpl.
  destruct s as [m fm]. unfold setForm; simpl. f_equal.
  rewrite filter_notin_singleton, filter_app, filter_ne_absent by done.
  rewrite filter_cons_False by (intros H; by apply H).
  rewrite filter_nil, app_nil_r. by destruct fm.
Qed.

Lemma register_unregister_top_level_witness :
  dotfree "email" = true /\ ("email" ∉ fieldIds (form nameAndTags))
  /\ unregister "email" (register "email" nameAndTags) = nameAndTags.
Proof.
  assert (H : "email" ∉ fieldIds (form nameAndTags))
    by (apply (bool_decide_unpack _); vm_compute; exact I).
  split; [reflexivity|]. split; [exact H|].
  exact (register_unregister_top_level "email" nameAndTags eq_refl H).
Defined.

Section registration_depth.
Import Registration.

Lemma getField_foldl_addNode_other ns idxs s k :
  (forall i, i ∈ idxs -> nestedName (i + 1) ns ≠ k) ->
  getField (foldl (addNode ns) s idxs) k = getField s k.
Proof.
  revert s. induction idxs as [|i idxs IH]; intros s H; simpl; [done|].
  rewrite IH by (intros j Hj; apply H; by right).
  rewrite getField_addNode, decide_False; [done|]. apply H. by left.
Qed.

(** The cell of a proper prefix after the loop of [add]: it went through
    the two updaters once. *)
Lemma getField_addNodes_prefix ns s i :
  i < length ns - 1 ->
  getField (addNodes ns s) (nestedName (i + 1) ns)
  = link (nestedName (i + 2) ns) (coerce (getField s (nestedName (i + 1) ns))).
Proof.
  intros Hi. unfold addNodes.
  assert (Hseq : seq 0 (length ns - 1)
                 = seq 0 i ++ i :: seq (S i) (length ns - 1 - S i)).
  { replace (length ns - 1) with (i + S (length ns - 1 - S i)) at 1 by lia.
    rewrite seq_app. simpl. done. }
  rewrite Hseq, foldl_app. simpl.
  rewrite getField_foldl_addNode_other.
  - rewrite getField_addNode, decide_True by done.
    rewrite getField_foldl_addNode_other; [done|].
    intros j Hj%elem_of_seq H. apply (f_equal String.length) in H.
    pose proof (nestedName_length_lt (j + 1) (i + 1) ns). lia.
  - intros j Hj%elem_of_seq H. apply (f_equal String.length) in H.
    pose proof (nestedName_length_lt (i + 1) (j + 1) ns). lia.
Qed.

End registration_depth.

(** X7.  Registering a dotted name and then unregistering it restores the
    children of its parent (when the name was not among them) but is not
    undone otherwise: the parent stays the structural node registration
    made of it, and the first segment stays among [fieldIds]. *)
Theorem register_unregister_nested (name : string) (s : Store) :
  Registration.hasDot name = true ->
  name ∉ children (getField s (parentOf name)) ->
  let s' := unregister name (register name s) in
  children (getField s' (parentOf name)) = children (getField s (parentOf name))
  /\ type (getField s' (parentOf name)) = coerced (type (getField s (parentOf name)))
  /\ topLevel name ∈ fieldIds (form s').
Proof.
  intros Hdot Hn s'. unfold s'.
  assert (Hlen : 2 <= length (split name)).
  { unfold Registration.hasDot in Hdot. apply negb_true_iff in Hdot.
    destruct (split name) as [|x [|y l]] eqn:E; simpl; try lia.
    - by apply split_nonempty in E.
    - pose proof (join_split name) as Hj. rewrite E in Hj. simpl in Hj.
      subst x. assert (Hs : length (split name) = 1) by (by rewrite E).
      clear E. exfalso. revert Hdot Hs. clear.
      induction name as [|c n IH]; simpl; [done|].
      destruct (Ascii.eqb c dot) eqn:Ec; simpl.
      + intros _ Hs. pose proof (split_nonempty n).
        destruct (split n); simpl in *; [done|lia].
      + intros Hd Hs. apply IH; [done|].
        pose proof (split_nonempty n). by destruct (split n). }
  set (ns := split name) in *.
  assert (Hparent : parentOf name = nestedName (length ns - 2 + 1) ns).
  { unfold parentOf, dropRight, nestedName, take. fold ns.
    rewrite decide_True by lia. f_equal. f_equal. lia. }
  assert (Hname : name = nestedName (length ns - 2 + 2) ns).
  { replace (length ns - 2 + 2) with (length ns) by lia.
    unfold ns. by rewrite nestedName_all, join_split. }
  assert (Hcell : getField (register name s) (parentOf name)
                  = Registration.link name
                      (Registration.coerce (getField s (parentOf name)))).
  { rewrite register_unfold, getField_setForm. fold ns.
    rewrite Hparent. rewrite getField_addNodes_prefix by lia.
    by rewrite <- Hname. }
  split_and!.
  - rewrite getField_unregister, decide_True by done. simpl.
    rewrite Hcell. unfold Registration.link.
    rewrite decide_True by apply coerce_nonfield. simpl.
    assert (children (Registration.coerce (getField s (parentOf name)))
            = children (getField s (parentOf name))) as ->
      by (unfold Registration.coerce; by case_decide).
    unfold addOnlyIfUnique. rewrite decide_False by done.
    rewrite filter_app, filter_ne_absent by done.
    rewrite filter_cons_False by (intros H; by apply H).
    by rewrite filter_nil, app_nil_r.
  - rewrite getField_unregister, decide_True by done. simpl.
    by rewrite Hcell, link_type, coerce_type.
  - rewrite form_unregister. cbn [fieldIds with_fieldIds].
    apply list_elem_of_filter. split.
    + intros E. unfold Registration.hasDot in Hdot.
      apply negb_true_iff in Hdot.
      assert (Hd : dotfree (topLevel name) = true).
      { unfold topLevel. fold ns. clear -ns. subst ns.
        induction name as [|c n IH]; simpl; [done|].
        destruct (Ascii.eqb c dot) eqn:Ec; simpl; [done|].
        pose proof (split_nonempty n).
        destruct (split n); simpl in *; [done|]. by rewrite Ec. }
      congruence.
    + rewrite register_unfold. unfold setForm; cbn [form].
      apply addToForm_elem. by left.
Qed.

Lemma register_unregister_nested_witness :
  Registration.hasDot "tags.u1.label" = true
  /\ ("tags.u1.label"
        ∉ children (getField (store twoRows) (parentOf "tags.u1.label")))
  /\ let s' := unregister "tags.u1.label"
                 (register "tags.u1.label" (store twoRows)) in
     children (getField s' (parentOf "tags.u1.label"))
     = children (getField (store twoRows) (parentOf "tags.u1.label"))
     /\ type (getField s' (parentOf "tags.u1.label"))
        = coerced (type (getField (store twoRows) (parentOf "tags.u1.label")))
     /\ topLevel "tags.u1.label" ∈ fieldIds (form s').
Proof.
  assert (H : "tags.u1.label"
              ∉ children (getField (store twoRows) (parentOf "tags.u1.label")))
    by (apply (bool_decide_unpack _); vm_compute; exact I).
  split; [reflexivity|]. split; [exact H|].
  exact (register_unregister_nested "tags.u1.label" (store twoRows) eq_refl H).
Defined.

(** ** The bulk setters *)

Section setters.
Import Form.

Lemma sameButValue_refl st : sameButValue st st.
Proof. by repeat split. Qed.

Lemma sameButValue_trans st1 st2 st3 :
  sameButValue st1 st2 -> sameButValue st2 st3 -> sameButValue st1 st3.
Proof. intros (?&?&?&?&?&?) (?&?&?&?&?&?). repeat split; congruence. Qed.

Lemma sameButInitial_refl st : sameButInitial st st.
Proof. by repeat split. Qed.

Lemma sameButInitial_trans st1 st2 st3 :
  sameButInitial st1 st2 -> sameButInitial st2 st3 -> sameButInitial st1 st3.
Proof. intros (?&?&?&?&?&?&?) (?&?&?&?&?&?&?). repeat split; congruence. Qed.

Lemma assignValue_sameButValue opts v st : sameButValue st (assignValue opts v st).
Proof. unfold assignValue. by destruct (equal opts (value st) v). Qed.

Lemma updater_valueFrame fuel opts values s s' :
  updater fuel opts values s = Ok s' -> valueFrame s s'.
Proof.
  revert values s s'. induction fuel as [|fuel IH]; intros values s s' H;
    simpl in H; [done|].
  refine (forEach_invariant (valueFrame s) _ _ _ _ _ _ H).
  - intros [id v] s1 s2 [Hf1 H1] Hstep; simpl in Hstep.
    destruct (type (getField s1 id)).
    + injection Hstep as <-. split; [done|]. intros k.
      rewrite getField_setField. case_decide; [subst|done].
      eapply sameButValue_trans; [apply H1|apply assignValue_sameButValue].
    + destruct (entries v) as [props|e]; simpl in Hstep; [|done].
      apply IH in Hstep as [Hf2 H2]. split; [congruence|]. intros k.
      eapply sameButValue_trans; [apply H1|apply H2].
    + by injection Hstep as <-.
  - split; [done|]. intros k. apply sameButValue_refl.
Qed.

Lemma initialUpdater_initialFrame fuel values s s' :
  initialUpdater fuel values s = Ok s' -> initialFrame s s'.
Proof.
  revert values s s'. induction fuel as [|fuel IH]; intros values s s' H;
    simpl in H; [done|].
  refine (forEach_invariant (initialFrame s) _ _ _ _ _ _ H).
  - intros [id v] s1 s2 [Hf1 H1] Hstep; simpl in Hstep.
    destruct (type (getField s1 id)).
    + injection Hstep as <-. split; [done|]. intros k.
      rewrite getField_setField. case_decide; [subst|done].
      eapply sameButInitial_trans; [apply H1|]. by repeat split.
    + destruct (entries v) as [props|e]; simpl in Hstep; [|done].
      apply IH in Hstep as [Hf2 H2]. split; [congruence|]. intros k.
      eapply sameButInitial_trans; [apply H1|apply H2].
    + by injection Hstep as <-.
  - split; [done|]. intros k. apply sameButInitial_refl.
Qed.

(** Qualifying the keys of an object keeps its entries apart. *)
Lemma assign_fresh {T} (acc : Dict T) key (v : T) :
  key ∉ acc.*1 -> assign acc key v = acc ++ [(key, v)].
Proof.
  induction acc as [|[k w] acc IH]; intros H; simpl; [done|].
  simpl in H. apply not_elem_of_cons in H as [Hne Hin].
  rewrite decide_False by done. by rewrite IH.
Qed.

Lemma flatten_keys id props k :
  id +:+ "." +:+ k ∈ (flatten id props).*1 -> k ∈ props.*1.
Proof.
  unfold flatten. rewrite <- list_fmap_compose.
  intros ([k' v'] & E & Hin)%list_elem_of_fmap. simpl in E.
  apply (inj (String.append id)) in E.
  apply (inj (String.append ".")) in E. subst k.
  apply list_elem_of_fmap. by exists (k', v').
Qed.

Lemma qualify_flatten_acc id props acc :
  NoDup props.*1 -> (forall k, k ∈ props.*1 -> k ∉ acc.*1) ->
  foldl (fun acc kv => assign acc (id +:+ "." +:+ kv.1) kv.2)
    (flatten id acc) props
  = flatten id (acc ++ props).
Proof.
  revert acc. induction props as [|[k v] props IH]; intros acc Hnd Hacc; simpl.
  - by rewrite app_nil_r.
  - simpl in Hnd. apply NoDup_cons in Hnd as [Hk Hnd].
    assert (Hin : k ∉ acc.*1) by (apply Hacc; left).
    rewrite assign_fresh by (intros H; by apply flatten_keys in H).
    change (flatten id acc ++ [(id +:+ "." +:+ k, v)])
      with (flatten id acc ++ flatten id [(k, v)]).
    unfold flatten at 1 2. rewrite <- fmap_app.
    fold (flatten id (acc ++ [(k, v)])).
    rewrite IH; [by rewrite <- app_assoc|done|].
    intros k' Hk'. rewrite fmap_app.
    intros [H|H]%elem_of_app; [by apply (Hacc k'); [right|]|].
    simpl in H. apply list_elem_of_singleton in H. by subst.
Qed.

Lemma qualify_flatten id props :
  NoDup props.*1 -> qualify id props = flatten id props.
Proof.
  intros Hnd. unfold qualify.
  apply (qualify_flatten_acc id props [] Hnd).
  intros k _. apply not_elem_of_nil.
Qed.

End setters.

(** X8.  [setValues] changes values and validations only: when it
    returns, every cell has the variant, the children, the initial value,
    the touched flags and the validator it had, and the form-level node is
    untouched. *)
Theorem setValues_frame (fuel : nat) (values : Dict JsValue)
    (opts : SetValuesOptions) (s s' : Store) (k : string) :
  Form.setValues fuel values opts s = Ok s' ->
  form s' = form s /\ sameButValue (getField s k) (getField s' k).
Proof.
  intros H. apply updater_valueFrame in H as [Hf Hk]. by split.
Qed.

Lemma setValues_frame_witness :
  Form.setValues 2 [("a", JObj [("b", JNum 7)])] defaultOptions
    (register "a.b" emptyStore)
  = Ok (setField "a.b" (Form.assignValue defaultOptions (JNum 7))
          (register "a.b" emptyStore))
  /\ form (setField "a.b" (Form.assignValue defaultOptions (JNum 7))
             (register "a.b" emptyStore))
     = form (register "a.b" emptyStore)
  /\ sameButValue (getField (register "a.b" emptyStore) "a")
       (getField (setField "a.b" (Form.assignValue defaultOptions (JNum 7))
                    (register "a.b" emptyStore)) "a").
Proof.
  assert (H : Form.setValues 2 [("a", JObj [("b", JNum 7)])] defaultOptions
                (register "a.b" emptyStore)
              = Ok (setField "a.b" (Form.assignValue defaultOptions (JNum 7))
                      (register "a.b" emptyStore))) by reflexivity.
  split; [exact H|].
  exact (setValues_frame 2 _ defaultOptions _ _ "a" H).
Defined.

(** X9.  [setInitialValues] changes initial values only: when it
    returns, every cell has the variant, the children, the value, the
    touched flags, the validator and the validation it had, and the
    form-level node is untouched. *)
Theorem setInitialValues_frame (fuel : nat) (values : Dict JsValue)
    (s s' : Store) (k : string) :
  Form.setInitialValues fuel values s = Ok s' ->
  form s' = form s /\ sameButInitial (getField s k) (getField s' k).
Proof.
  intros H. apply initialUpdater_initialFrame in H as [Hf Hk]. by split.
Qed.

Lemma setInitialValues_frame_witness :
  Form.setInitialValues 1 [("name", JStr "n")] nameAndTags
  = Ok (setField "name" (with_initialValue (JStr "n")) nameAndTags)
  /\ form (setField "name" (with_initialValue (JStr "n")) nameAndTags)
     = form nameAndTags
  /\ sameButInitial (getField nameAndTags "name")
       (getField (setField "name" (with_initialValue (JStr "n")) nameAndTags)
          "name").
Proof.
  assert (H : Form.setInitialValues 1 [("name", JStr "n")] nameAndTags
              = Ok (setField "name" (with_initialValue (JStr "n")) nameAndTags))
    by reflexivity.
  split; [exact H|].
  exact (setInitialValues_frame 1 _ _ _ "name" H).
Defined.

(** X10.  On a map node, an object is assigned property by property
    under the qualified names: [setValues({a: {k1: v1, ...}})] does what
    [setValues({"a.k1": v1, ...})] does (with one level of recursion
    less), and likewise for [setInitialValues]. *)
Theorem setValues_object_is_flat (fuel : nat) (opts : SetValuesOptions)
    (s : Store) (a : string) (props : list (string * JsValue)) :
  type (getField s a) = FieldType.map -> NoDup props.*1 ->
  Form.setValues (S fuel) [(a, JObj props)] opts s
  = Form.setValues fuel (flatten a props) opts s
  /\ Form.setInitialValues (S fuel) [(a, JObj props)] s
     = Form.setInitialValues fuel (flatten a props) s.
Proof.
  intros Ht Hnd. unfold Form.setValues, Form.setInitialValues. simpl.
  rewrite Ht. simpl. rewrite qualify_flatten by done.
  split.
  - by destruct (Form.updater fuel opts (flatten a props) s).
  - by destruct (Form.initialUpdater fuel (flatten a props) s).
Qed.

Lemma setValues_object_is_flat_witness :
  type (getField (Registration.add ["a.b"; "a.c"] emptyStore) "a") = FieldType.map
  /\ NoDup [("b", JNum 1); ("c", JNum 2)].*1
  /\ Form.setValues 2 [("a", JObj [("b", JNum 1); ("c", JNum 2)])] defaultOptions
       (Registration.add ["a.b"; "a.c"] emptyStore)
     = Form.setValues 1 (flatten "a" [("b", JNum 1); ("c", JNum 2)])
         defaultOptions (Registration.add ["a.b"; "a.c"] emptyStore)
  /\ Form.setInitialValues 2 [("a", JObj [("b", JNum 1); ("c", JNum 2)])]
       (Registration.add ["a.b"; "a.c"] emptyStore)
     = Form.setInitialValues 1 (flatten "a" [("b", JNum 1); ("c", JNum 2)])
         (Registration.add ["a.b"; "a.c"] emptyStore).
Proof.
  assert (H : NoDup [("b", JNum 1); ("c", JNum 2)].*1)
    by (apply (bool_decide_unpack _); vm_compute; exact I).
  split; [reflexivity|]. split; [exact H|].
  exact (setValues_object_is_flat 1 defaultOptions
           (Registration.add ["a.b"; "a.c"] emptyStore) "a"
           [("b", JNum 1); ("c", JNum 2)] eq_refl H).
Defined.

Section setter_edges.
Import Form.

Lemma updater_nil fuel opts s : updater (S fuel) opts [] s = Ok s.
Proof. reflexivity. Qed.

Lemma initialUpdater_nil fuel s : initialUpdater (S fuel) [] s = Ok s.
Proof. reflexivity. Qed.

Lemma updater_throws fuel opts before a v after s s1 :
  updater (S fuel) opts before s = Ok s1 ->
  type (getField s a) = FieldType.map -> entries v = Fail TypeError ->
  updater (S fuel) opts (before ++ (a, v) :: after) s = Fail TypeError.
Proof.
  intros Hb Ht Hv. simpl in *. rewrite forEach_app, Hb. simpl.
  assert (Hs : sameTypes s s1) by exact (updater_types (S fuel) _ _ _ _ Hb).
  by rewrite Hs, Ht, Hv.
Qed.

Lemma initialUpdater_throws fuel before a v after s s1 :
  initialUpdater (S fuel) before s = Ok s1 ->
  type (getField s a) = FieldType.map -> entries v = Fail TypeError ->
  initialUpdater (S fuel) (before ++ (a, v) :: after) s = Fail TypeError.
Proof.
  intros Hb Ht Hv. simpl in *. rewrite forEach_app, Hb. simpl.
  assert (Hs : sameTypes s s1) by exact (initialUpdater_types (S fuel) _ _ _ Hb).
  by rewrite Hs, Ht, Hv.
Qed.

End setter_edges.

(** X11.  An entry for a map node whose value is [null] or [undefined]
    makes [setValues] and [setInitialValues] throw a [TypeError], also
    after entries that were processed without error and whatever follows
    it; a number or a boolean there is ignored and the store returned as
    it was. *)
Theorem map_entry_not_an_object (fuel : nat) (opts : SetValuesOptions)
    (s s1 s2 : Store) (a : string) (before after : Dict JsValue) :
  type (getField s a) = FieldType.map ->
  Form.setValues (S fuel) before opts s = Ok s1 ->
  Form.setInitialValues (S fuel) before s = Ok s2 ->
  (forall v, v = JNull \/ v = JUndefined ->
     Form.setValues (S fuel) (before ++ (a, v) :: after) opts s = Fail TypeError
     /\ Form.setInitialValues (S fuel) (before ++ (a, v) :: after) s
        = Fail TypeError)
  /\ (forall v, (exists n, v = JNum n) \/ (exists b, v = JBool b) ->
        Form.setValues (S (S fuel)) [(a, v)] opts s = Ok s
        /\ Form.setInitialValues (S (S fuel)) [(a, v)] s = Ok s).
Proof.
  intros Ht H1 H2. split.
  - intros v Hv. unfold Form.setValues, Form.setInitialValues in *. split.
    + apply (updater_throws fuel opts before a v after s s1); [done|done|].
      by destruct Hv as [->| ->].
    + apply (initialUpdater_throws fuel before a v after s s2); [done|done|].
      by destruct Hv as [->| ->].
  - intros v Hv. unfold Form.setValues, Form.setInitialValues.
    assert (He : entries v = Ok []) by (by destruct Hv as [[n ->]|[b ->]]).
    simpl. by rewrite Ht, He.
Qed.

Lemma map_entry_not_an_object_witness :
  type (getField (register "name" (register "a.b" emptyStore)) "a") = FieldType.map
  /\ Form.setValues 1 [("name", JStr "x")] defaultOptions
       (register "name" (register "a.b" emptyStore))
     = Ok (setField "name" (Form.assignValue defaultOptions (JStr "x"))
             (register "name" (register "a.b" emptyStore)))
  /\ Form.setInitialValues 1 [("name", JStr "x")]
       (register "name" (register "a.b" emptyStore))
     = Ok (setField "name" (with_initialValue (JStr "x"))
             (register "name" (register "a.b" emptyStore)))
  /\ Form.setValues 1 ([("name", JStr "x")] ++ ("a", JNull) :: []) defaultOptions
       (register "name" (register "a.b" emptyStore)) = Fail TypeError
  /\ Form.setValues 2 [("a", JNum 5)] defaultOptions
       (register "name" (register "a.b" emptyStore))
     = Ok (register "name" (register "a.b" emptyStore)).
Proof.
  set (s := register "name" (register "a.b" emptyStore)).
  assert (H1 : Form.setValues 1 [("name", JStr "x")] defaultOptions s
               = Ok (setField "name" (Form.assignValue defaultOptions (JStr "x")) s))
    by reflexivity.
  assert (H2 : Form.setInitialValues 1 [("name", JStr "x")] s
               = Ok (setField "name" (with_initialValue (JStr "x")) s))
    by reflexivity.
  destruct (map_entry_not_an_object 0 defaultOptions s _ _ "a"
              [("name", JStr "x")] [] eq_refl H1 H2) as [Hthrow Hskip].
  split; [reflexivity|]. split; [exact H1|]. split; [exact H2|]. split.
  - exact (proj1 (Hthrow JNull (or_introl eq_refl))).
  - exact (proj1 (Hskip (JNum 5) (or_introl (ex_intro _ 5%Z eq_refl)))).
Defined.

(** X12.  [setInitialValues({x: v})] on a plain field followed by
    [reset] leaves [x] with value [v], untouched, and validated against
    [v], provided [$allFieldIds] lists [x]. *)
Theorem setInitialValues_then_reset (allFieldIds : Store -> list string)
    (fuel : nat) (s : Store) (x : string) (v : JsValue) :
  type (getField s x) = FieldType.field ->
  x ∈ allFieldIds (setField x (with_initialValue v) s) ->
  exists s1,
    Form.setInitialValues (S fuel) [(x, v)] s = Ok s1
    /\ value (getField (Form.reset allFieldIds s1) x) = v
    /\ initialValue (getField (Form.reset allFieldIds s1) x) = v
    /\ touched (getField (Form.reset allFieldIds s1) x) = false
    /\ touchedAfterSubmit (getField (Form.reset allFieldIds s1) x) = false
    /\ validation (getField (Form.reset allFieldIds s1) x)
       = validator (getField s x) v.
Proof.
  intros Ht Hin. exists (setField x (with_initialValue v) s). split.
  - unfold Form.setInitialValues. simpl. by rewrite Ht.
  - unfold Form.reset. destruct restore_props as [Hkeep Hagain].
    rewrite getField_onEachField by done.
    rewrite decide_True by done.
    rewrite onFieldTypeOnly_field by (by rewrite getField_setField_eq).
    rewrite getField_setField_eq. done.
Qed.

Lemma setInitialValues_then_reset_witness :
  type (getField edited "name") = FieldType.field
  /\ "name" ∈ allLeaves 2 (setField "name" (with_initialValue (JStr "init")) edited)
  /\ exists s1,
       Form.setInitialValues 1 [("name", JStr "init")] edited = Ok s1
       /\ value (getField (Form.reset (allLeaves 2) s1) "name") = JStr "init"
       /\ initialValue (getField (Form.reset (allLeaves 2) s1) "name") = JStr "init"
       /\ touched (getField (Form.reset (allLeaves 2) s1) "name") = false
       /\ touchedAfterSubmit (getField (Form.reset (allLeaves 2) s1) "name") = false
       /\ validation (getField (Form.reset (allLeaves 2) s1) "name")
          = validator (getField edited "name") (JStr "init").
Proof.
  assert (H : "name" ∈ allLeaves 2
                (setField "name" (with_initialValue (JStr "init")) edited))
    by (apply (bool_decide_unpack _); vm_compute; exact I).
  split; [reflexivity|]. split; [exact H|].
  exact (setInitialValues_then_reset (allLeaves 2) 0 edited "name" (JStr "init")
           eq_refl H).
Defined.

(** ** The per-field operations *)

Section per_field.
Import Form.

Lemma getField_onEachField_twice f g ids s k :
  (forall st, type (f st) = type st) -> (forall st, f (f st) = f st) ->
  (forall st, type (g st) = type st) -> (forall st, g (g st) = g st) ->
  (forall st, g (f st) = g st) ->
  getField (onEachField g ids (onEachField f ids s)) k
  = getField (onEachField g ids s) k.
Proof.
  intros Hft Hff Hgt Hgg Hgf.
  rewrite !getField_onEachField by done.
  case_decide; [|done].
  unfold onFieldTypeOnly. repeat case_decide; try done.
  - by rewrite Hft in *.
Qed.

End per_field.

(** [setAllToTouched] followed by [resetTouched] leaves every cell
    as [resetTouched] alone does: the later call wins on both flags, for
    a selector that lists the same ids after the first call. *)
Theorem setAllToTouched_then_resetTouched (allFieldIds : Store -> list string)
    (s : Store) (k : string) :
  allFieldIds (Form.setAllToTouched allFieldIds s) = allFieldIds s ->
  getField (Form.resetTouched allFieldIds (Form.setAllToTouched allFieldIds s)) k
  = getField (Form.resetTouched allFieldIds s) k.
Proof.
  intros H. unfold Form.resetTouched at 1. rewrite H.
  unfold Form.setAllToTouched, Form.resetTouched.
  by apply getField_onEachField_twice.
Qed.

Lemma setAllToTouched_then_resetTouched_witness :
  allLeaves 2 (Form.setAllToTouched (allLeaves 2) edited) = allLeaves 2 edited
  /\ getField (Form.resetTouched (allLeaves 2)
                 (Form.setAllToTouched (allLeaves 2) edited)) "name"
     = getField (Form.resetTouched (allLeaves 2) edited) "name".
Proof.
  assert (H : allLeaves 2 (Form.setAllToTouched (allLeaves 2) edited)
              = allLeaves 2 edited) by (vm_compute; reflexivity).
  split; [exact H|].
  exact (setAllToTouched_then_resetTouched (allLeaves 2) edited "name" H).
Defined.

(** X13.  [reset] is idempotent: a second [reset] leaves every cell as
    the first one left it, for a selector that lists the same ids after
    the first call. *)
Theorem reset_idempotent (allFieldIds : Store -> list string)
    (s : Store) (k : string) :
  allFieldIds (Form.reset allFieldIds s) = allFieldIds s ->
  getField (Form.reset allFieldIds (Form.reset allFieldIds s)) k
  = getField (Form.reset allFieldIds s) k.
Proof.
  intros H. unfold Form.reset at 1. rewrite H. unfold Form.reset.
  by apply getField_onEachField_twice.
Qed.

Lemma reset_idempotent_witness :
  allLeaves 2 (Form.reset (allLeaves 2) edited) = allLeaves 2 edited
  /\ getField (Form.reset (allLeaves 2) (Form.reset (allLeaves 2) edited)) "name"
     = getField (Form.reset (allLeaves 2) edited) "name".
Proof.
  assert (H : allLeaves 2 (Form.reset (allLeaves 2) edited) = allLeaves 2 edited)
    by (vm_compute; reflexivity).
  split; [exact H|].
  exact (reset_idempotent (allLeaves 2) edited "name" H).
Defined.

(** X14.  [revalidate(ids)] with a non-empty list recomputes the
    validation of the listed plain fields from their current value and
    validator and changes nothing else: a listed structural node and every
    cell that is not listed are what they were, and so are the values and
    the touched flags; [revalidate([])] is [revalidate] of all the ids of
    [$allFieldIds]. *)
Theorem revalidate_listed (allFieldIds : Store -> list string)
    (ids : list string) (s : Store) (k : string) :
  0 < length ids ->
  getField (Form.revalidate allFieldIds ids s) k
  = (if decide (k ∈ ids /\ type (getField s k) = FieldType.field)
     then with_validation (validator (getField s k) (value (getField s k)))
            (getField s k)
     else getField s k)
  /\ Form.revalidate allFieldIds [] s
     = Form.revalidate allFieldIds (allFieldIds s) s.
Proof.
  intros Hlen. split.
  - unfold Form.revalidate. rewrite decide_True by done.
    destruct recheck_props as [Hkeep Hagain].
    rewrite getField_onEachField by done.
    destruct (decide (k ∈ ids)) as [Hin|Hin].
    + destruct (decide (type (getField s k) = FieldType.field)) as [Ht|Ht].
      * rewrite decide_True by done. by rewrite onFieldTypeOnly_field.
      * rewrite decide_False by (by intros [_ ?]).
        by rewrite onFieldTypeOnly_structural.
    + rewrite decide_False by (by intros [? _]). done.
  - unfold Form.revalidate.
    rewrite (decide_False (P := 0 < length (@nil string))) by (simpl; lia).
    by destruct (decide (0 < length (allFieldIds s))).
Qed.

Lemma revalidate_listed_witness :
  0 < length ["name"]
  /\ getField (Form.revalidate (allLeaves 2) ["name"] edited) "name"
     = (if decide ("name" ∈ ["name"]
                   /\ type (getField edited "name") = FieldType.field)
        then with_validation
               (validator (getField edited "name") (value (getField edited "name")))
               (getField edited "name")
        else getField edited "name")
  /\ Form.revalidate (allLeaves 2) [] edited
     = Form.revalidate (allLeaves 2) (allLeaves 2 edited) edited.
Proof.
  assert (H : 0 < length ["name"]) by (simpl; lia).
  split; [exact H|].
  exact (revalidate_listed (allLeaves 2) ["name"] edited "name" H).
Defined.

Section errors.
Import Form.
Variable createNamedValidation : string -> ValidationResult -> ValidationResult.

Lemma getField_setErrors_other errors s k :
  k ∉ errors.*1 ->
  getField (setErrors createNamedValidation errors s) k = getField s k.
Proof.
  revert s. unfold setErrors.
  induction errors as [|[n e] errors IH]; intros s H; simpl; [done|].
  simpl in H. apply not_elem_of_cons in H as [Hne Hin].
  rewrite IH by done. by rewrite getField_setField_ne.
Qed.

Lemma getField_setErrors_listed errors s name e :
  NoDup errors.*1 -> (name, e) ∈ errors ->
  getField (setErrors createNamedValidation errors s) name
  = with_validation (createNamedValidation name e) (getField s name).
Proof.
  revert s. unfold setErrors.
  induction errors as [|[n e'] errors IH]; intros s Hnd Hin; simpl.
  - by apply elem_of_nil in Hin.
  - simpl in Hnd. apply NoDup_cons in Hnd as [Hn Hnd].
    apply elem_of_cons in Hin as [E|Hin].
    + injection E as <- <-.
      fold (setErrors createNamedValidation errors
              (setField name (with_validation (createNamedValidation name e)) s)).
      rewrite getField_setErrors_other by done.
      by rewrite getField_setField_eq.
    + rewrite IH by done.
      rewrite getField_setField_ne; [done|].
      intros ->. apply Hn. apply list_elem_of_fmap. by exists (name, e).
Qed.

End errors.

(** X15.  [setErrors] replaces the validation of every named cell by the
    named validation built from its error, whatever the cell's variant (a
    map or a list node is written like a plain field), keeps every other
    property of the cell, and leaves the cells it does not name as they
    were. *)
Theorem setErrors_writes_any_variant
    (createNamedValidation : string -> ValidationResult -> ValidationResult)
    (errors : Dict ValidationResult) (s : Store) (name : string)
    (e : ValidationResult) :
  NoDup errors.*1 -> (name, e) ∈ errors ->
  getField (Form.setErrors createNamedValidation errors s) name
  = with_validation (createNamedValidation name e) (getField s name)
  /\ forall k, k ∉ errors.*1 ->
       getField (Form.setErrors createNamedValidation errors s) k = getField s k.
Proof.
  intros Hnd Hin. split.
  - by apply getField_setErrors_listed.
  - intros k Hk. by apply getField_setErrors_other.
Qed.

Lemma setErrors_writes_any_variant_witness :
  NoDup [("tags", mkValidation false false)].*1
  /\ ("tags", mkValidation false false) ∈ [("tags", mkValidation false false)]
  /\ type (getField nameAndTags "tags") = FieldType.list
  /\ getField (Form.setErrors plainError [("tags", mkValidation false false)]
                 nameAndTags) "tags"
     = with_validation (plainError "tags" (mkValidation false false))
         (getField nameAndTags "tags")
  /\ forall k, k ∉ [("tags", mkValidation false false)].*1 ->
       getField (Form.setErrors plainError [("tags", mkValidation false false)]
                   nameAndTags) k
       = getField nameAndTags k.
Proof.
  assert (H1 : NoDup [("tags", mkValidation false false)].*1)
    by (apply (bool_decide_unpack _); vm_compute; exact I).
  assert (H2 : ("tags", mkValidation false false)
               ∈ [("tags", mkValidation false false)])
    by (apply list_elem_of_singleton; reflexivity).
  split; [exact H1|]. split; [exact H2|]. split; [reflexivity|].
  exact (setErrors_writes_any_variant plainError
           [("tags", mkValidation false false)] nameAndTags "tags"
           (mkValidation false false) H1 H2).
Defined.

Section clearing.
Import Form.
Variable allFieldIds : Store -> list string.

Lemma getField_resetField id s k :
  getField (resetField id s) k
  = if decide (id = k) then fieldDefault else getField s k.
Proof.
  unfold getField, resetField; simpl. case_decide; [subst|].
  - by rewrite lookup_delete_eq.
  - by rewrite lookup_delete_ne.
Qed.

Lemma getField_foldl_resetField ids s k :
  getField (foldl (fun s id => resetField id s) s ids) k
  = if decide (k ∈ ids) then fieldDefault else getField s k.
Proof.
  revert s. induction ids as [|id ids IH]; intros s; cbn [foldl].
  - rewrite decide_False; [done|]. apply not_elem_of_nil.
  - rewrite IH, getField_resetField.
    destruct (decide (k ∈ ids)) as [Hin|Hin].
    + rewrite decide_True; [done|by right].
    + destruct (decide (id = k)) as [->|Hne].
      * rewrite decide_True; [done|by left].
      * rewrite decide_False; [done|].
        intros [->|?]%elem_of_cons; done.
Qed.

Lemma form_foldl_resetField ids s :
  form (foldl (fun s id => resetField id s) s ids) = form s.
Proof.
  revert s. induction ids as [|id ids IH]; intros s; simpl; [done|].
  by rewrite IH.
Qed.

End clearing.

(** X16.  After [clear] the form-level node is the default (no
    registered ids, no submission), every cell that [$allFieldIds] listed
    reads as the default cell, and every other cell, a structural node
    that the selector does not list among them, is what it was. *)
Theorem clear_resets_listed (allFieldIds : Store -> list string)
    (s : Store) (k : string) :
  form (Form.clear allFieldIds s) = formDefault
  /\ getField (Form.clear allFieldIds s) k
     = if decide (k ∈ allFieldIds s) then fieldDefault else getField s k.
Proof.
  unfold Form.clear. split.
  - by rewrite form_foldl_resetField.
  - by rewrite getField_foldl_resetField.
Qed.

(** When the selected validity flag of the bag is true, [submit]
    invokes the regular callback once, with the bag, and nothing else, and
    leaves the store as it was; [createSubmitPromise] then records the
    promise as the form's submission and keeps [fieldIds]. *)
Theorem submit_valid (allFieldIds : Store -> list string)
    (getBag : Store -> list JsValue -> Bag) (isValidProp : IsValidProp)
    (args : list JsValue) (promise : nat) (s : Store) :
  selectValid isValidProp (bag_validation (getBag s args)) = true ->
  Form.submit allFieldIds getBag isValidProp args s
  = (s, [onSubmit (getBag s args)])
  /\ let r := Form.createSubmitPromise allFieldIds getBag isValidProp args
                promise s in
     r.2 = [onSubmit (getBag s args)]
     /\ submission (form r.1) = Some promise
     /\ fieldIds (form r.1) = fieldIds (form s)
     /\ fields r.1 = fields s.
Proof.
  intros Hvalid. unfold Form.createSubmitPromise, Form.submit.
  rewrite Hvalid. simpl. done.
Qed.

Lemma submit_valid_witness :
  selectValid isValidStrictKey (bag_validation (bagOf 2 edited [JNum 1])) = true
  /\ Form.submit (allLeaves 2) (bagOf 2) isValidStrictKey [JNum 1] edited
     = (edited, [onSubmit (bagOf 2 edited [JNum 1])])
  /\ let r := Form.createSubmitPromise (allLeaves 2) (bagOf 2) isValidStrictKey
                [JNum 1] 7 edited in
     r.2 = [onSubmit (bagOf 2 edited [JNum 1])]
     /\ submission (form r.1) = Some 7
     /\ fieldIds (form r.1) = fieldIds (form edited)
     /\ fields r.1 = fields edited.
Proof.
  split; [reflexivity|].
  exact (submit_valid (allLeaves 2) (bagOf 2) isValidStrictKey [JNum 1] 7 edited
           eq_refl).
Defined.

(** ** Registration of one name *)

Section mounting.
Import Registration.

Lemma register_dotfree name s :
  dotfree name = true -> name ∉ fieldIds (form s) ->
  register name s = setForm (with_fieldIds (fieldIds (form s) ++ [name])) s.
Proof.
  intros Hd Hn. rewrite register_unfold. rewrite split_dotfree by done.
  unfold addNodes; simpl. unfold topLevel.
  rewrite split_dotfree by done. simpl.
  unfold setForm, addToForm. f_equal. f_equal.
  rewrite filter_cons_True by done. by rewrite filter_nil.
Qed.

(** Registering a name writes its proper prefixes only. *)
Lemma getField_register_self name s :
  getField (register name s) name = getField s name.
Proof.
  rewrite register_unfold, getField_setForm. unfold addNodes.
  apply getField_foldl_addNode_other.
  intros i Hi%elem_of_seq H.
  assert (Hlast : nestedName (length (split name)) (split name) = name)
    by (by rewrite nestedName_all, join_split).
  rewrite <- Hlast in H at 2. apply (f_equal String.length) in H.
  pose proof (nestedName_length_lt (i + 1) (length (split name)) (split name)).
  lia.
Qed.

End mounting.

(** ** The list hook: children *)

Lemma dropIndex_offset (n : nat) (index : Z) (cs : list string) :
  (filter (fun p : nat * string => Z.of_nat p.1 ≠ index)
     (imap (fun j x => (n + j, x)) cs)).*2
  = if decide (Z.of_nat n <= index)%Z then delete (Z.to_nat index - n) cs else cs.
Proof.
  revert n. induction cs as [|c cs IH]; intros n.
  - simpl. by case_decide.
  - rewrite imap_cons.
    rewrite (imap_ext _ (fun j x => (S n + j, x)))
      by (intros j x _; simpl; f_equal; lia).
    destruct (decide (Z.of_nat (n + 0) = index)) as [E|E].
    + rewrite filter_cons_False by (simpl; intros H; by apply H).
      rewrite IH. rewrite decide_False by lia.
      rewrite decide_True by lia.
      replace (Z.to_nat index - n) with 0 by lia. done.
    + rewrite filter_cons_True by done. rewrite fmap_cons, IH. cbn [snd].
      destruct (decide (Z.of_nat n <= index)%Z) as [Hle|Hgt].
      * rewrite decide_True by lia.
        replace (Z.to_nat index - n) with (S (Z.to_nat index - S n)) by lia.
        done.
      * rewrite decide_False by lia. done.
Qed.

Lemma dropIndex_delete (index : Z) (cs : list string) :
  UseList.dropIndex index cs
  = if decide (0 <= index)%Z then delete (Z.to_nat index) cs else cs.
Proof.
  unfold UseList.dropIndex.
  rewrite (imap_ext _ (fun j x => (0 + j, x))) by done.
  rewrite dropIndex_offset. change (Z.of_nat 0) with 0%Z.
  destruct (decide (0 <= index)%Z); [by rewrite Nat.sub_0_r|done].
Qed.

Lemma delete_out_of_range {A} (i : nat) (l : list A) :
  length l <= i -> delete i l = l.
Proof.
  intros H. rewrite delete_take_drop.
  rewrite take_ge by lia. rewrite drop_ge by lia. apply app_nil_r.
Qed.

(** X20.  [remove(index)] with an index inside the array deletes the
    child at that index and no other, keeping the order of the rest,
    releases the last segment of the deleted name into the pool, and
    touches no other cell and no other property of the list's cell. *)
Theorem remove_inside (name : string) (st : ListState) (index : nat)
    (removed : string) :
  children (getField (store st) name) !! index = Some removed ->
  let st' := UseList.remove name (Z.of_nat index) st in
  children (getField (store st') name)
  = delete index (children (getField (store st) name))
  /\ length (children (getField (store st') name))
     = length (children (getField (store st) name)) - 1
  /\ namesToReuse st' = setAdd (UseList.lastSegment removed) (namesToReuse st)
  /\ getField (store st') name
     = with_children (children (getField (store st') name))
         (getField (store st) name)
  /\ forall k, k ≠ name -> getField (store st') k = getField (store st) k.
Proof.
  intros Hidx st'. unfold st', UseList.remove, UseList.setFieldState; simpl.
  rewrite getField_setField_eq. simpl.
  rewrite dropIndex_delete, decide_True by lia. rewrite Nat2Z.id.
  rewrite at_index_nat, Hidx.
  split_and!; try done.
  - rewrite length_delete by (by eexists). done.
  - intros k Hk. by rewrite getField_setField_ne.
Qed.

Lemma remove_inside_witness :
  children (getField (store twoRows) "tags") !! 0 = Some "tags.u1"
  /\ let st' := UseList.remove "tags" 0 twoRows in
     children (getField (store st') "tags")
     = delete 0 (children (getField (store twoRows) "tags"))
     /\ length (children (getField (store st') "tags"))
        = length (children (getField (store twoRows) "tags")) - 1
     /\ namesToReuse st'
        = setAdd (UseList.lastSegment "tags.u1") (namesToReuse twoRows)
     /\ getField (store st') "tags"
        = with_children (children (getField (store st') "tags"))
            (getField (store twoRows) "tags")
     /\ forall k, k ≠ "tags" -> getField (store st') k = getField (store twoRows) k.
Proof.
  split; [reflexivity|].
  exact (remove_inside "tags" twoRows 0 "tags.u1" eq_refl).
Defined.

(** X21.  [remove(index)] with an index outside the array (negative, or
    not below the length) removes nothing and releases nothing: every
    cell reads as before and the pool is what it was. *)
Theorem remove_outside (name : string) (st : ListState) (index : Z) :
  (index < 0 \/ Z.of_nat (length (children (getField (store st) name))) <= index)%Z ->
  let st' := UseList.remove name index st in
  namesToReuse st' = namesToReuse st
  /\ forall k, getField (store st') k = getField (store st) k.
Proof.
  intros Hout st'. unfold st', UseList.remove, UseList.setFieldState; simpl.
  assert (Hat : at_index (children (getField (store st) name)) index = None).
  { destruct Hout as [Hneg|Hge]; [by apply at_index_negative|].
    unfold at_index. case_decide; [|done]. apply lookup_ge_None. lia. }
  rewrite Hat. split; [done|]. intros k.
  rewrite getField_setField. case_decide; [subst k|done].
  rewrite dropIndex_delete.
  destruct Hout as [Hneg|Hge].
  - rewrite decide_False by lia. apply with_children_same.
  - rewrite decide_True by lia. rewrite delete_out_of_range by lia.
    apply with_children_same.
Qed.

Lemma remove_outside_witness :
  (-1 < 0 \/ Z.of_nat (length (children (getField (store twoRows) "tags"))) <= -1)%Z
  /\ let st' := UseList.remove "tags" (-1) twoRows in
     namesToReuse st' = namesToReuse twoRows
     /\ forall k, getField (store st') k = getField (store twoRows) k.
Proof.
  assert (H : (-1 < 0 \/ Z.of_nat (length (children (getField (store twoRows)
                                                 "tags"))) <= -1)%Z)
    by (left; lia).
  split; [exact H|].
  exact (remove_outside "tags" twoRows (-1) H).
Defined.

Lemma split_append_dot (p q : string) :
  split (p +:+ "." +:+ q) = split p ++ split q.
Proof.
  induction p as [|c p IH]; [reflexivity|].
  change (split (String c (p +:+ "." +:+ q))
          = split (String c p) ++ split q).
  simpl. rewrite IH. destruct (Ascii.eqb c dot); [done|].
  pose proof (split_nonempty p). by destruct (split p).
Qed.

Lemma lastSegment_child (name id : string) :
  dotfree id = true -> UseList.lastSegment (name +:+ "." +:+ id) = id.
Proof.
  intros H. unfold UseList.lastSegment.
  rewrite split_append_dot, (split_dotfree id) by done. by rewrite last_snoc.
Qed.

Lemma remove_inside_state (name : string) (st : ListState) (index : nat)
    (removed : string) :
  children (getField (store st) name) !! index = Some removed ->
  children (getField (store (UseList.remove name (Z.of_nat index) st)) name)
  = delete index (children (getField (store st) name))
  /\ namesToReuse (UseList.remove name (Z.of_nat index) st)
     = setAdd (UseList.lastSegment removed) (namesToReuse st).
Proof.
  intros Hidx. unfold UseList.remove, UseList.setFieldState; simpl.
  rewrite getField_setField_eq. simpl.
  rewrite dropIndex_delete, decide_True by lia. rewrite Nat2Z.id.
  by rewrite at_index_nat, Hidx.
Qed.

(** X22.  [add()] followed by [remove] of the last index restores the
    list: every cell reads as before the two calls. *)
Theorem add_then_remove_last (name fresh : string) (st : ListState) (k : string) :
  let st1 := (UseList.add name fresh st).2 in
  let last := Z.of_nat (length (children (getField (store st) name))) in
  getField (store (UseList.remove name last st1)) k = getField (store st) k.
Proof.
  intros st1 last. unfold st1, last, UseList.remove, UseList.add,
    UseList.setFieldState. cbn [store snd fst].
  rewrite !getField_setField. case_decide; [subst k|done].
  rewrite decide_True by done. cbn [children with_children].
  rewrite dropIndex_delete, decide_True by lia. rewrite Nat2Z.id.
  rewrite delete_middle, app_nil_r.
  by destruct (getField (store st) name).
Qed.

(** X23.  On a list whose pool is empty, removing the child
    [<list>.<id>], with [id] non-empty and without a dot, and calling
    [add()] next gives the new child that very name: the released id is
    reused and the pool is empty again. *)
Theorem remove_then_add_same_name (name id fresh : string) (st : ListState)
    (index : nat) :
  namesToReuse st = [] -> id ≠ EmptyString -> dotfree id = true ->
  children (getField (store st) name) !! index = Some (name +:+ "." +:+ id) ->
  let r := UseList.add name fresh (UseList.remove name (Z.of_nat index) st) in
  r.1 = name +:+ "." +:+ id
  /\ namesToReuse r.2 = []
  /\ children (getField (store r.2) name)
     = delete index (children (getField (store st) name))
       ++ [name +:+ "." +:+ id].
Proof.
  intros Hpool Hid Hd Hidx r.
  destruct (remove_inside_state name st index _ Hidx) as [Hcs Hp].
  rewrite lastSegment_child, Hpool in Hp by done.
  unfold r, UseList.add, UseList.setFieldState. cbn [fst snd store namesToReuse].
  rewrite Hp. change (setAdd id []) with [id].
  rewrite generateNewName_reuses by done. cbn [fst snd].
  split_and!; [done| |].
  - unfold setDelete. rewrite filter_cons_False by (intros H; by apply H). done.
  - rewrite getField_setField_eq. cbn [children with_children]. by rewrite Hcs.
Qed.

Lemma remove_then_add_same_name_witness :
  namesToReuse twoRows = [] /\ "u1" ≠ EmptyString /\ dotfree "u1" = true
  /\ children (getField (store twoRows) "tags") !! 0 = Some ("tags" +:+ "." +:+ "u1")
  /\ let r := UseList.add "tags" "u9" (UseList.remove "tags" (Z.of_nat 0) twoRows) in
     r.1 = "tags" +:+ "." +:+ "u1"
     /\ namesToReuse r.2 = []
     /\ children (getField (store r.2) "tags")
        = delete 0 (children (getField (store twoRows) "tags"))
          ++ ["tags" +:+ "." +:+ "u1"].
Proof.
  assert (H : "u1" ≠ EmptyString) by discriminate.
  split; [reflexivity|]. split; [exact H|]. split; [reflexivity|].
  split; [reflexivity|].
  exact (remove_then_add_same_name "tags" "u1" "u9" twoRows 0
           eq_refl H eq_refl eq_refl).
Defined.

Lemma relIndex_inside len (i : nat) : i <= len -> relIndex len (Z.of_nat i) = i.
Proof.
  intros H. unfold relIndex. rewrite decide_False by lia.
  rewrite Z.min_l by lia. apply Nat2Z.id.
Qed.

Lemma relIndex_beyond len (i : nat) : len <= i -> relIndex len (Z.of_nat i) = len.
Proof.
  intros H. unfold relIndex. rewrite decide_False by lia.
  rewrite Z.min_r by lia. apply Nat2Z.id.
Qed.

(** X24.  [addAt(index)] with an index at or beyond the length appends:
    it returns the name and leaves the state that [add()] does. *)
Theorem addAt_beyond_is_add (name fresh : string) (st : ListState) (index : nat) :
  length (children (getField (store st) name)) <= index ->
  UseList.addAt name (Z.of_nat index) fresh st = UseList.add name fresh st.
Proof.
  intros H. unfold UseList.addAt, UseList.add, UseList.setFieldState.
  cbn [store namesToReuse]. f_equal. f_equal.
  unfold setField. f_equal. f_equal. f_equal.
  unfold spliceIn. rewrite relIndex_beyond by done.
  rewrite firstn_all, skipn_all. done.
Qed.

Lemma addAt_beyond_is_add_witness :
  length (children (getField (store twoRows) "tags")) <= 5
  /\ UseList.addAt "tags" (Z.of_nat 5) "u3" twoRows = UseList.add "tags" "u3" twoRows.
Proof.
  assert (H : length (children (getField (store twoRows) "tags")) <= 5)
    by (vm_compute; lia).
  split; [exact H|].
  exact (addAt_beyond_is_add "tags" "u3" twoRows 5 H).
Defined.

Example addAt_positions :
  children (getField (store (UseList.addAt "tags" 0 "u3" twoRows).2) "tags")
  = ["tags.u3"; "tags.u1"; "tags.u2"]
  /\ children (getField (store (UseList.addAt "tags" (-1) "u3" twoRows).2) "tags")
     = ["tags.u1"; "tags.u3"; "tags.u2"]
  /\ children (getField (store (UseList.addAt "tags" (-7) "u3" twoRows).2) "tags")
     = ["tags.u3"; "tags.u1"; "tags.u2"].
Proof. vm_compute. auto. Qed.

(** ** The list hook: reordering *)

Lemma asStrings_undefined xs : None ∈ xs -> asStrings xs = Fail NotAString.
Proof.
  intros H. unfold asStrings.
  destruct (mapM (fun x : option string => x) xs) as [cs|] eqn:E; [|done].
  apply mapM_Some in E. exfalso.
  induction E as [|x y l k Hxy E IH]; [by apply elem_of_nil in H|].
  apply elem_of_cons in H as [Hx|H]; [by subst x|by apply IH].
Qed.

Lemma at_index_outside {T} (xs : list T) (i : Z) :
  (i < 0 \/ Z.of_nat (length xs) <= i)%Z -> at_index xs i = None.
Proof.
  intros [H|H]; [by apply at_index_negative|].
  unfold at_index. case_decide; [|done]. apply lookup_ge_None. lia.
Qed.

Lemma moveChildren_inside (from : nat) (to : Z) (cs : list string) x :
  cs !! from = Some x ->
  UseList.moveChildren (Z.of_nat from) to cs
  = Some <$> (firstn (relIndex (length (delete from cs)) to) (delete from cs)
              ++ x :: skipn (relIndex (length (delete from cs)) to)
                        (delete from cs)).
Proof.
  intros Hx. pose proof (lookup_lt_Some _ _ _ Hx) as Hlt.
  unfold UseList.moveChildren.
  assert (Hbefore : slice 0 (Z.of_nat from) cs = firstn from cs).
  { unfold slice. rewrite (relIndex_inside _ 0), relIndex_inside by lia.
    by rewrite Nat.sub_0_r. }
  assert (Hafter : sliceFrom (Z.of_nat from + 1) cs = skipn (S from) cs).
  { unfold sliceFrom. replace (Z.of_nat from + 1)%Z with (Z.of_nat (S from)) by lia.
    by rewrite relIndex_inside by lia. }
  rewrite Hbefore, Hafter, at_index_nat, Hx.
  rewrite <- delete_take_drop.
  unfold slice, sliceFrom. rewrite (relIndex_inside _ 0) by lia.
  rewrite Nat.sub_0_r. simpl.
  rewrite fmap_app. done.
Qed.

(** X25.  [move(from, to)] with [from] inside the array returns, leaves
    the same children in another order (none lost, none repeated, none
    added), puts the moved child at index [to] when [to] is inside the
    array too, and changes nothing at all when [to] is [from]; no other
    cell and no other property of the list's cell is touched. *)
Theorem move_inside (name : string) (st : ListState) (from : nat) (to : Z)
    (moved : string) :
  children (getField (store st) name) !! from = Some moved ->
  exists st',
    UseList.move name (Z.of_nat from) to st = Ok st'
    /\ children (getField (store st') name) ≡ₚ children (getField (store st) name)
    /\ (forall t : nat, t < length (children (getField (store st) name)) ->
          to = Z.of_nat t -> children (getField (store st') name) !! t = Some moved)
    /\ (to = Z.of_nat from ->
          children (getField (store st') name) = children (getField (store st) name))
    /\ getField (store st') name
       = with_children (children (getField (store st') name))
           (getField (store st) name)
    /\ (forall k, k ≠ name -> getField (store st') k = getField (store st) k)
    /\ namesToReuse st' = namesToReuse st.
Proof.
  intros Hx. set (cs := children (getField (store st) name)) in *.
  pose proof (lookup_lt_Some _ _ _ Hx) as Hlt.
  set (temp := delete from cs).
  set (r := relIndex (length temp) to).
  exists (UseList.setFieldState name
            (with_children (firstn r temp ++ moved :: skipn r temp)) st).
  assert (Hlen : length temp = length cs - 1).
  { unfold temp. rewrite length_delete by (by eexists). done. }
  split_and!.
  - unfold UseList.move. fold cs.
    by rewrite (moveChildren_inside from to cs moved Hx), asStrings_Some.
  - unfold UseList.setFieldState; simpl. rewrite getField_setField_eq. simpl.
    rewrite <- Permutation_middle.
    rewrite take_drop. unfold temp. symmetry. by apply delete_Permutation.
  - intros t Ht ->. unfold UseList.setFieldState; simpl.
    rewrite getField_setField_eq. simpl.
    assert (Hr : r = t) by (unfold r; apply relIndex_inside; lia).
    rewrite Hr. apply list_lookup_middle.
    rewrite length_take. lia.
  - intros ->. unfold UseList.setFieldState; simpl.
    rewrite getField_setField_eq. simpl.
    assert (Hr : r = from) by (unfold r; apply relIndex_inside; lia).
    rewrite Hr. unfold temp. rewrite delete_take_drop.
    rewrite take_app_le by (rewrite length_take; lia).
    rewrite take_take, Nat.min_id.
    rewrite drop_app_length' by (rewrite length_take; lia).
    by apply take_drop_middle.
  - unfold UseList.setFieldState; simpl. by rewrite getField_setField_eq.
  - intros k Hk. unfold UseList.setFieldState; simpl.
    by rewrite getField_setField_ne.
  - done.
Qed.

Lemma move_inside_witness :
  children (getField (store twoRows) "tags") !! 0 = Some "tags.u1"
  /\ exists st',
       UseList.move "tags" (Z.of_nat 0) 1 twoRows = Ok st'
       /\ children (getField (store st') "tags")
          ≡ₚ children (getField (store twoRows) "tags")
       /\ children (getField (store st') "tags") !! 1 = Some "tags.u1"
       /\ namesToReuse st' = namesToReuse twoRows.
Proof.
  split; [reflexivity|].
  destruct (move_inside "tags" twoRows 0 1 "tags.u1" eq_refl)
    as (st' & Hmove & Hperm & Hat & _ & _ & _ & Hpool).
  exists st'. split; [exact Hmove|]. split; [exact Hperm|].
  split; [|exact Hpool].
  apply (Hat 1); [vm_compute; lia|reflexivity].
Defined.

(** X26.  An index outside the array makes [swap] and [move] write
    [undefined] among the children: [swap] with one index inside and the
    other outside puts it at the inside index, in either order of the
    arguments, and [move] from outside inserts it; [swap] with both
    indices outside changes nothing. *)
Theorem outside_index_writes_undefined (name : string) (st : ListState)
    (inside : nat) (outside other to : Z) :
  let cs := children (getField (store st) name) in
  inside < length cs ->
  (outside < 0 \/ Z.of_nat (length cs) <= outside)%Z ->
  (other < 0 \/ Z.of_nat (length cs) <= other)%Z ->
  UseList.swapChildren (Z.of_nat inside) outside cs !! inside = Some None
  /\ UseList.swapChildren outside (Z.of_nat inside) cs !! inside = Some None
  /\ None ∈ UseList.moveChildren outside to cs
  /\ UseList.swap name (Z.of_nat inside) outside st = Fail NotAString
  /\ UseList.swap name outside (Z.of_nat inside) st = Fail NotAString
  /\ UseList.move name outside to st = Fail NotAString
  /\ UseList.swapChildren outside other cs = Some <$> cs.
Proof.
  intros cs Hin Hout Hother.
  destruct (lookup_lt_is_Some_2 cs inside Hin) as [x Hx].
  pose proof (at_index_outside cs outside Hout) as Ho.
  pose proof (at_index_outside cs other Hother) as Ho'.
  assert (Hne : Z.of_nat inside ≠ outside) by lia.
  assert (H1 : UseList.swapChildren (Z.of_nat inside) outside cs !! inside
               = Some None).
  { unfold UseList.swapChildren. rewrite list_lookup_imap, Hx. simpl.
    rewrite decide_True by done. by rewrite Ho. }
  assert (H2 : UseList.swapChildren outside (Z.of_nat inside) cs !! inside
               = Some None).
  { unfold UseList.swapChildren. rewrite list_lookup_imap, Hx. simpl.
    rewrite decide_False by done. rewrite decide_True by done. by rewrite Ho. }
  assert (H3 : None ∈ UseList.moveChildren outside to cs).
  { unfold UseList.moveChildren. rewrite Ho. apply elem_of_app. right. by left. }
  split_and!; try done.
  - unfold UseList.swap. fold cs. rewrite asStrings_undefined; [done|].
    apply list_elem_of_lookup. by exists inside.
  - unfold UseList.swap. fold cs. rewrite asStrings_undefined; [done|].
    apply list_elem_of_lookup. by exists inside.
  - unfold UseList.move. fold cs. by rewrite asStrings_undefined.
  - unfold UseList.swapChildren. rewrite Ho, Ho'.
    apply list_eq. intros i. rewrite list_lookup_imap, list_lookup_fmap.
    destruct (cs !! i) as [y|] eqn:Hi; simpl; [|done].
    pose proof (lookup_lt_Some _ _ _ Hi).
    rewrite decide_False by lia. rewrite decide_False by lia. done.
Qed.

Lemma outside_index_writes_undefined_witness :
  0 < length (children (getField (store twoRows) "tags"))
  /\ (2 < 0 \/ Z.of_nat (length (children (getField (store twoRows) "tags"))) <= 2)%Z
  /\ (-1 < 0 \/ Z.of_nat (length (children (getField (store twoRows) "tags"))) <= -1)%Z
  /\ UseList.swap "tags" (Z.of_nat 0) 2 twoRows = Fail NotAString
  /\ UseList.move "tags" 2 0 twoRows = Fail NotAString
  /\ UseList.swapChildren 2 (-1) (children (getField (store twoRows) "tags"))
     = Some <$> children (getField (store twoRows) "tags").
Proof.
  assert (H1 : 0 < length (children (getField (store twoRows) "tags")))
    by (vm_compute; lia).
  assert (H2 : (2 < 0 \/ Z.of_nat (length (children (getField (store twoRows)
                                                  "tags"))) <= 2)%Z)
    by (right; vm_compute; discriminate).
  assert (H3 : (-1 < 0 \/ Z.of_nat (length (children (getField (store twoRows)
                                                   "tags"))) <= -1)%Z)
    by (left; lia).
  split; [exact H1|]. split; [exact H2|]. split; [exact H3|].
  destruct (outside_index_writes_undefined "tags" twoRows 0 2 (-1) 0 H1 H2 H3)
    as (_ & _ & _ & Hswap & _ & Hmove & Hboth).
  split; [exact Hswap|]. split; [exact Hmove|]. exact Hboth.
Defined.

(** A negative [from] makes [move] copy children besides: the slices
    count from the end. *)
Example move_negative_from :
  UseList.moveChildren (-1) 0 ["r0"; "r1"]
  = [None; Some "r0"; Some "r0"; Some "r1"].
Proof. vm_compute. reflexivity. Qed.

(** X27.  [removeAll] empties the children of the list and releases the
    last segment of every one of them: afterwards the pool holds exactly
    what it held and those segments, and no other cell and no other
    property of the list's cell is touched. *)
Theorem removeAll_releases (name : string) (st : ListState) :
  let st' := UseList.removeAll name st in
  children (getField (store st') name) = []
  /\ (forall id, id ∈ namesToReuse st' <->
        id ∈ namesToReuse st
        \/ exists c, c ∈ children (getField (store st) name)
                     /\ UseList.lastSegment c = id)
  /\ getField (store st') name = with_children [] (getField (store st) name)
  /\ forall k, k ≠ name -> getField (store st') k = getField (store st) k.
Proof.
  intros st'. unfold st', UseList.removeAll, UseList.setFieldState; simpl.
  rewrite getField_setField_eq. split_and!; try done.
  - intros id. generalize (namesToReuse st) as pool.
    induction (children (getField (store st) name)) as [|c cs IH];
      intros pool; simpl.
    + split; [by left|]. intros [H|(c & Hc & _)]; [done|].
      by apply elem_of_nil in Hc.
    + rewrite IH. unfold UseList.removeName, setAdd. split.
      * intros [H|(c' & Hc' & E)].
        -- case_decide; [by left|].
           apply elem_of_app in H as [H|H]; [by left|].
           apply list_elem_of_singleton in H. right. exists c. split; [by left|done].
        -- right. exists c'. split; [by right|done].
      * intros [H|(c' & Hc' & E)].
        -- left. case_decide; [done|]. apply elem_of_app. by left.
        -- apply elem_of_cons in Hc' as [->|Hc'].
           ++ left. case_decide; [by subst|].
              apply elem_of_app. right. by apply list_elem_of_singleton.
           ++ right. by exists c'.
  - intros k Hk. by rewrite getField_setField_ne.
Qed.

(** ** [createRows] *)

Lemma assign_keys {T} (acc : Dict T) key (v : T) k :
  k ∈ (assign acc key v).*1 -> k ∈ acc.*1 \/ k = key.
Proof.
  induction acc as [|[k' w] acc IH]; simpl.
  - intros H%list_elem_of_singleton. by right.
  - case_decide as Hd; simpl.
    + intros Hin. by left.
    + intros [->|Hin]%elem_of_cons; [left; by left|].
      destruct (IH Hin) as [?|?]; [left; by right|by right].
Qed.

Lemma foldl_assign_below name rowName props (acc : Dict JsValue) :
  below name rowName ->
  (forall k, k ∈ acc.*1 -> below name k) ->
  forall k, k ∈ (foldl (fun acc kv => assign acc (rowName +:+ "." +:+ kv.1) kv.2)
                   acc props).*1 -> below name k.
Proof.
  intros [rest ->]. revert acc.
  induction props as [|[p v] props IH]; intros acc Hacc k; simpl; [apply Hacc|].
  apply IH. intros k' Hk'. apply assign_keys in Hk' as [H| ->]; [by apply Hacc|].
  exists (rest +:+ "." +:+ p). by rewrite !append_assoc.
Qed.

Lemma add_name_below name fresh st : below name (UseList.add name fresh st).1.
Proof. unfold UseList.add, UseList.generateNewName; simpl. by eexists. Qed.

Lemma add_other_cells name fresh st k :
  k ≠ name ->
  getField (store (UseList.add name fresh st).2) k = getField (store st) k.
Proof.
  intros H. unfold UseList.add, UseList.setFieldState; simpl.
  by rewrite getField_setField_ne.
Qed.

Lemma entries_hasEntries v : hasEntries v -> exists props, entries v = Ok props.
Proof. intros [H1 H2]. destruct v; simpl; eauto; done. Qed.

Lemma createRowsFrom_cons_ok name fresh i row rest acc st props :
  entries row = Ok props ->
  createRowsFrom name fresh i (row :: rest) acc st
  = createRowsFrom name fresh (S i) rest
      (foldl (fun acc kv =>
                assign acc ((UseList.add name (fresh i) st).1 +:+ "." +:+ kv.1)
                  kv.2) acc props)
      (UseList.add name (fresh i) st).2.
Proof. intros H. simpl. by rewrite H. Qed.

Lemma createRowsFrom_cons_fail name fresh i row rest acc st e :
  entries row = Fail e ->
  createRowsFrom name fresh i (row :: rest) acc st
  = ((UseList.add name (fresh i) st).2, Fail e).
Proof. intros H. simpl. by rewrite H. Qed.

Lemma createRowsFrom_ok name fresh i rows acc st :
  Forall hasEntries rows ->
  (forall k, k ∈ acc.*1 -> below name k) ->
  let r := createRowsFrom name fresh i rows acc st in
  exists dict,
    r.2 = Ok dict
    /\ (forall k, k ∈ dict.*1 -> below name k)
    /\ length (children (getField (store r.1) name))
       = length (children (getField (store st) name)) + length rows
    /\ children (getField (store st) name)
         `prefix_of` children (getField (store r.1) name)
    /\ forall k, k ≠ name -> getField (store r.1) k = getField (store st) k.
Proof.
  intros Hrows. revert i acc st.
  induction Hrows as [|row rows Hrow Hrows IH]; intros i acc st Hacc r.
  - exists acc. unfold r; simpl. split_and!; try done; lia.
  - unfold r.
    destruct (entries_hasEntries row Hrow) as [props Hprops].
    rewrite (createRowsFrom_cons_ok _ _ _ _ _ _ _ _ Hprops).
    set (a := UseList.add name (fresh i) st).
    destruct (IH (S i)
                (foldl (fun acc kv => assign acc (a.1 +:+ "." +:+ kv.1) kv.2)
                   acc props) a.2) as (dict & Hd & Hk & Hlen & Hpre & Hother).
    { apply foldl_assign_below; [apply add_name_below|done]. }
    exists dict. split_and!; try done.
    + rewrite Hlen. unfold a. rewrite children_add, length_app. simpl. lia.
    + etrans; [|exact Hpre]. unfold a. rewrite children_add. by eexists.
    + intros k Hne. rewrite Hother by done. by apply add_other_cells.
Qed.

(** X28.  When every row is a value that [Object.entries] accepts,
    [createRows] returns a dictionary whose keys are all paths below the
    list, and it has added exactly one child per row at the end of the
    list's children, keeping the children that were there and touching no
    other cell. *)
Theorem createRows_adds_one_child_per_row (name : string)
    (fresh : nat -> string) (rows : list JsValue) (st : ListState) :
  Forall hasEntries rows ->
  let r := createRows name fresh rows st in
  exists dict,
    r.2 = Ok dict
    /\ (forall k, k ∈ dict.*1 -> exists rest, k = name +:+ "." +:+ rest)
    /\ length (children (getField (store r.1) name))
       = length (children (getField (store st) name)) + length rows
    /\ children (getField (store st) name)
         `prefix_of` children (getField (store r.1) name)
    /\ forall k, k ≠ name -> getField (store r.1) k = getField (store st) k.
Proof.
  intros Hrows r.
  apply (createRowsFrom_ok name fresh 0 rows [] st Hrows).
  intros k Hk. by apply elem_of_nil in Hk.
Qed.

Lemma createRows_adds_one_child_per_row_witness :
  Forall hasEntries [JObj [("label", JStr "a")]; JObj [("label", JStr "b")]]
  /\ let r := createRows "tags" (fun i => "n" +:+ pretty i)
                [JObj [("label", JStr "a")]; JObj [("label", JStr "b")]]
                twoRows in
     r.2 = Ok [("tags.n0.label", JStr "a"); ("tags.n1.label", JStr "b")]
     /\ length (children (getField (store r.1) "tags"))
        = length (children (getField (store twoRows) "tags")) + 2.
Proof.
  assert (H : Forall hasEntries
                [JObj [("label", JStr "a")]; JObj [("label", JStr "b")]])
    by (repeat constructor; discriminate).
  split; [exact H|].
  destruct (createRows_adds_one_child_per_row "tags" (fun i => "n" +:+ pretty i)
              _ twoRows H) as (dict & Hd & _ & Hlen & _).
  split; [vm_compute; reflexivity|exact Hlen].
Defined.

Lemma createRowsFrom_throws name fresh i before row after acc st :
  Forall hasEntries before -> entries row = Fail TypeError ->
  let r := createRowsFrom name fresh i (before ++ row :: after) acc st in
  r.2 = Fail TypeError
  /\ length (children (getField (store r.1) name))
     = length (children (getField (store st) name)) + length before + 1.
Proof.
  intros Hb Hrow. revert i acc st.
  induction Hb as [|b before Hb Hbefore IH]; intros i acc st r.
  - unfold r. rewrite app_nil_l.
    rewrite (createRowsFrom_cons_fail _ _ _ _ _ _ _ _ Hrow). cbn [fst snd].
    split; [done|]. rewrite children_add, length_app. simpl. lia.
  - unfold r. destruct (entries_hasEntries b Hb) as [props Hprops].
    rewrite <- app_comm_cons.
    rewrite (createRowsFrom_cons_ok _ _ _ _ _ _ _ _ Hprops).
    set (a := UseList.add name (fresh i) st).
    destruct (IH (S i)
                (foldl (fun acc kv => assign acc (a.1 +:+ "." +:+ kv.1) kv.2)
                   acc props) a.2) as [Hf Hlen].
    split; [done|]. rewrite Hlen. unfold a.
    rewrite children_add, length_app. simpl. lia.
Qed.

(** X29.  A row that is [null] or [undefined] makes [createRows] throw a
    [TypeError], and by then a child has been added for every row up to
    and including that one: the rows before it and the failing row leave
    their children in the list. *)
Theorem createRows_throws_midway (name : string) (fresh : nat -> string)
    (before after : list JsValue) (row : JsValue) (st : ListState) :
  Forall hasEntries before -> row = JNull \/ row = JUndefined ->
  let r := createRows name fresh (before ++ row :: after) st in
  r.2 = Fail TypeError
  /\ length (children (getField (store r.1) name))
     = length (children (getField (store st) name)) + length before + 1.
Proof.
  intros Hb Hrow r. apply createRowsFrom_throws; [done|].
  by destruct Hrow as [->| ->].
Qed.

Lemma createRows_throws_midway_witness :
  Forall hasEntries [JObj [("label", JStr "a")]]
  /\ (JNull = JNull \/ JNull = JUndefined)
  /\ let r := createRows "tags" (fun i => "n" +:+ pretty i)
                ([JObj [("label", JStr "a")]] ++ JNull :: [JObj []]) twoRows in
     r.2 = Fail TypeError
     /\ length (children (getField (store r.1) "tags"))
        = length (children (getField (store twoRows) "tags"))
          + length [JObj [("label", JStr "a")]] + 1.
Proof.
  assert (H : Forall hasEntries [JObj [("label", JStr "a")]])
    by (repeat constructor; discriminate).
  split; [exact H|]. split; [by left|].
  exact (createRows_throws_midway "tags" (fun i => "n" +:+ pretty i)
           [JObj [("label", JStr "a")]] [JObj []] JNull twoRows H
           (or_introl eq_refl)).
Defined.

(** ** The ready callback *)

Section ready.
Import OnFormReady.

Lemma useFormReadyLoadable_spec delay values :
  useFormReadyLoadable delay values = true
  <-> delay = hasValue /\ values = hasValue.
Proof. destruct delay, values; simpl; split; (done || by intros [??]). Qed.

Lemma render_settled history st l :
  settled history st -> settled (history ++ [l]) (render st l).
Proof.
  intros [(Hrun & Hcalls & Hex)|(Hrun & Hcalls & Hall & Hlast)].
  - left. unfold render, effect. rewrite Hrun, andb_false_r.
    destruct (lastReady st) as [p|]; [destruct (Bool.eqb p _)|]; simpl;
      (split_and!; [done|done|apply Exists_app; by left]).
  - destruct (useFormReadyLoadable l.1 l.2) eqn:E.
    + left. apply useFormReadyLoadable_spec in E as Hready.
      unfold render, effect. rewrite E, Hrun. simpl.
      destruct (lastReady st) as [[|]|]; [done| |]; simpl;
        (split_and!; [done|by rewrite Hcalls|
                      apply Exists_app; right; by constructor]).
    + right. assert (Hn : ~ readyAt l).
      { intros H. apply useFormReadyLoadable_spec in H. congruence. }
      unfold render, effect. rewrite E. simpl.
      destruct (lastReady st) as [p|]; [destruct (Bool.eqb p false)|]; simpl;
        (split_and!; [done|done|
                      apply Forall_app; split; [done|by constructor]|done]).
Qed.

Lemma renders_settled history : settled history (renders history).
Proof.
  unfold renders. induction history as [|l history IH] using rev_ind.
  - right. by split_and!.
  - rewrite foldl_app. simpl. by apply render_settled.
Qed.

End ready.

(** X30.  A mounted ready component calls its callback at most once,
    whatever the renders: after any sequence of renders the callback has
    been called once if both loadables had a value in some render, and
    not at all otherwise, and the ref [run] says which. *)
Theorem ready_callback_once
    (history : list (OnFormReady.LoadableState * OnFormReady.LoadableState)) :
  let st := OnFormReady.renders history in
  OnFormReady.calls st <= 1
  /\ (OnFormReady.calls st = 1 <-> Exists readyAt history)
  /\ (OnFormReady.run st = true <-> OnFormReady.calls st = 1).
Proof.
  intros st. unfold st.
  destruct (renders_settled history)
    as [(Hrun & Hcalls & Hex)|(Hrun & Hcalls & Hall & _)].
  - rewrite Hrun, Hcalls. split_and!; [lia|done|done].
  - rewrite Hrun, Hcalls. split_and!; [lia| |done].
    split; [done|]. intros Hex. exfalso.
    apply Exists_exists in Hex as (l & Hin & Hl).
    rewrite Forall_forall in Hall. by apply (Hall l).
Qed.

(** * The callers of the registration, the variants and the recycler *)

(** ** [addFields], [removeFields] and the mount effect *)

Lemma addFields_cons name names s :
  Form.addFields (name :: names) s = Fail TypeError.
Proof. reflexivity. Qed.

Lemma removeFields_cons name names s :
  Form.removeFields (name :: names) s = Fail TypeError.
Proof. reflexivity. Qed.



Lemma mount_fails name st : UseList.mount name st = Fail TypeError.
Proof. reflexivity. Qed.

(** ** The selector of the leaves *)




(** ** Variants along the calls *)







Section performed.

Variable allFieldIds : Store -> list string.
Variable getBag : Store -> list JsValue -> Bag.
Variable createNamedValidation : string -> ValidationResult -> ValidationResult.








End performed.


Example sampleEnd_cells :
  type (getField (cells sampleEnd) "a") = FieldType.map
  /\ type (getField (cells sampleEnd) "tags") = FieldType.field
  /\ children (getField (cells sampleEnd) "tags") = ["tags.u2"; "tags.u1"]
  /\ fieldIds (form (cells sampleEnd)) = [].
Proof. vm_compute. auto. Qed.





(** A selector that lists a map lets [clear] turn it back into a plain
    field; the selector of the spec lists leaves only. *)
Example clear_with_a_selector_of_maps :
  let s := register "a.b" emptyStore in
  type (getField s "a") = FieldType.map
  /\ type (getField (Form.clear (fun _ => ["a"]) s) "a") = FieldType.field.
Proof. vm_compute. auto. Qed.

(** ** The recycler *)

Lemma setDelete_Forall (P : string -> Prop) x xs :
  Forall P xs -> Forall P (setDelete x xs).
Proof.
  rewrite !Forall_forall. intros H y [_ Hy]%list_elem_of_filter. by apply H.
Qed.

Lemma setAdd_Forall (P : string -> Prop) x xs :
  P x -> Forall P xs -> Forall P (setAdd x xs).
Proof.
  intros Hx Hxs. unfold setAdd. case_decide; [done|].
  apply Forall_app. split; [done|by constructor].
Qed.






Lemma generateNewName_pool name fresh pool :
  (UseList.generateNewName name fresh pool).2
  = match head pool with Some r => setDelete r pool | None => pool end.
Proof. reflexivity. Qed.



Example add_remove_add_on_a_new_list :
  let st2 := UseList.remove "tags" 0 (UseList.add "tags" "u3" addedTwice).2 in
  namesToReuse st2 = ["u1"]
  /\ (UseList.add "tags" "u4" st2).1 = "tags.u1"
  /\ children (getField (store (UseList.add "tags" "u4" st2).2) "tags")
     = ["tags.u2"; "tags.u3"; "tags.u1"]
  /\ namesToReuse (UseList.add "tags" "u4" st2).2 = [].
Proof. vm_compute. auto. Qed.

(** ** The ids in the pool *)

Lemma split_segments_dotfree s : Forall (fun seg => dotfree seg = true) (split s).
Proof.
  induction s as [|c rest IH]; cbn [split]; [by repeat constructor|].
  destruct (Ascii.eqb c dot) eqn:Ec; [by constructor|].
  destruct (split rest) as [|seg segs]; [by repeat constructor; simpl; rewrite Ec|].
  apply Forall_cons in IH as [Hseg Hsegs].
  constructor; [|done]. simpl. by rewrite Ec, Hseg.
Qed.

Lemma lastSegment_dotfree n : dotfree (UseList.lastSegment n) = true.
Proof.
  unfold UseList.lastSegment.
  destruct (last (split n)) as [seg|] eqn:E; [|done]. cbn [default].
  pose proof (split_segments_dotfree n) as H.
  rewrite Forall_forall in H. apply H.
  apply last_Some in E as [l' ->]. apply elem_of_app. right. by left.
Qed.

Lemma plainId_child name id :
  plainId id -> plainId (UseList.lastSegment (name +:+ "." +:+ id)).
Proof. intros [Hne Hdot]. by rewrite lastSegment_child. Qed.

Lemma generateNewName_plain name fresh pool :
  plainId fresh -> Forall plainId pool ->
  (exists id, plainId id
     /\ (UseList.generateNewName name fresh pool).1 = name +:+ "." +:+ id)
  /\ Forall plainId (UseList.generateNewName name fresh pool).2.
Proof.
  intros Hfresh Hpool. destruct pool as [|r rest].
  - split; [by exists fresh|done].
  - pose proof Hpool as [Hr _]%Forall_cons.
    rewrite generateNewName_reuses by apply Hr. cbn [fst snd].
    split; [by exists r|by apply setDelete_Forall].
Qed.

Lemma children_setFieldState name f st :
  children (getField (store (UseList.setFieldState name f st)) name)
  = children (f (getField (store st) name)).
Proof.
  unfold UseList.setFieldState. cbn [store]. by rewrite getField_setField_eq.
Qed.

Lemma asStrings_Forall (P : string -> Prop) xs cs :
  asStrings xs = Ok cs ->
  (forall c, Some c ∈ xs -> P c) -> Forall P cs.
Proof.
  unfold asStrings.
  destruct (mapM (fun x : option string => x) xs) as [cs'|] eqn:E; [|done].
  intros [= <-] H. apply mapM_Some in E.
  induction E as [|x y l k Hxy E IH]; [done|]. subst x.
  constructor; [apply H; by left|]. apply IH. intros c Hc. apply H. by right.
Qed.

Lemma at_index_elem {T} (xs : list T) (i : Z) x : at_index xs i = Some x -> x ∈ xs.
Proof.
  unfold at_index. case_decide; [|done]. apply list_elem_of_lookup_2.
Qed.

Lemma swapChildren_elem a b cs c :
  Some c ∈ UseList.swapChildren a b cs -> c ∈ cs.
Proof.
  unfold UseList.swapChildren.
  intros (i & Hi)%list_elem_of_lookup_1.
  rewrite list_lookup_imap in Hi.
  destruct (cs !! i) as [x|] eqn:Hx; [|done]. cbn in Hi.
  injection Hi as Hi.
  repeat case_decide.
  - by apply (at_index_elem cs b).
  - by apply (at_index_elem cs a).
  - injection Hi as <-. by eapply list_elem_of_lookup_2.
Qed.

Lemma slice_elem {T} (start stop : Z) (xs : list T) x :
  x ∈ slice start stop xs -> x ∈ xs.
Proof.
  unfold slice. intros H. by eapply subseteq_drop, subseteq_take.
Qed.

Lemma sliceFrom_elem {T} (start : Z) (xs : list T) x :
  x ∈ sliceFrom start xs -> x ∈ xs.
Proof. unfold sliceFrom. apply subseteq_drop. Qed.

Lemma moveChildren_elem from to cs c :
  Some c ∈ UseList.moveChildren from to cs -> c ∈ cs.
Proof.
  unfold UseList.moveChildren.
  assert (Htemp : forall y,
    y ∈ slice 0 from cs ++ sliceFrom (from + 1) cs -> y ∈ cs).
  { intros y [Hy|Hy]%elem_of_app;
      [by apply slice_elem in Hy|by apply sliceFrom_elem in Hy]. }
  intros [H|H]%elem_of_app.
  - apply list_elem_of_fmap in H as (y & [= ->] & Hy).
    by apply slice_elem, Htemp in Hy.
  - apply elem_of_cons in H as [H|H].
    + symmetry in H. by apply at_index_elem in H.
    + apply list_elem_of_fmap in H as (y & [= ->] & Hy).
      by apply sliceFrom_elem, Htemp in Hy.
Qed.

Lemma recyclable_children name cs st (P := fun c => plainId (UseList.lastSegment c)) :
  Forall plainId (namesToReuse st) -> Forall P cs ->
  recyclable name (UseList.setFieldState name (with_children cs) st).
Proof.
  intros Hpool Hcs. split; [done|]. by rewrite children_setFieldState.
Qed.

Lemma foldl_removeName_plain cs pool :
  Forall (fun c => plainId (UseList.lastSegment c)) cs ->
  Forall plainId pool ->
  Forall plainId (foldl (fun pool n => UseList.removeName n pool) pool cs).
Proof.
  intros Hcs. revert pool. induction Hcs as [|c cs Hc Hcs IH]; intros pool Hpool;
    cbn [foldl]; [done|].
  apply IH. by apply setAdd_Forall.
Qed.

(** X18.  The ids of a list's rows.  When the pool holds only ids that
    are not empty and have no dot, and the last segment of every child's
    name is such an id, this remains so after [add] and [addAt] (with such
    an id from [uid()]), after [remove] and [removeAll], and after a [swap]
    or a [move] inside the array: the list hook never releases the empty
    id, so its [generateNewName] never drops an id of the pool.  A new list
    starts that way. *)
Theorem pool_holds_plain_ids (name : string) (st : ListState) :
  recyclable name st ->
  (forall fresh, plainId fresh ->
     recyclable name (UseList.add name fresh st).2)
  /\ (forall index fresh, plainId fresh ->
        recyclable name (UseList.addAt name index fresh st).2)
  /\ (forall index, recyclable name (UseList.remove name index st))
  /\ recyclable name (UseList.removeAll name st)
  /\ (forall a b st', UseList.swap name a b st = Ok st' -> recyclable name st')
  /\ (forall from to st',
        UseList.move name from to st = Ok st' -> recyclable name st')
  /\ (forall s, children (getField s name) = [] -> recyclable name (mkList s [])).
Proof.
  intros [Hpool Hcs]. split_and!.
  - intros fresh Hfresh.
    destruct (generateNewName_plain name fresh _ Hfresh Hpool)
      as [(id & Hid & Hname) Hpool'].
    unfold UseList.add. cbn [snd]. split.
    + done.
    + rewrite children_setFieldState. cbn [children with_children store].
      apply Forall_app. split; [done|]. constructor; [|done].
      rewrite Hname. by apply plainId_child.
  - intros index fresh Hfresh.
    destruct (generateNewName_plain name fresh _ Hfresh Hpool)
      as [(id & Hid & Hname) Hpool'].
    unfold UseList.addAt. cbn [snd]. split.
    + done.
    + rewrite children_setFieldState. cbn [children with_children store].
      unfold spliceIn. apply Forall_app. split; [by apply Forall_take|].
      constructor; [|by apply Forall_drop].
      rewrite Hname. by apply plainId_child.
  - intros index. unfold UseList.remove. split.
    + cbn [namesToReuse UseList.setFieldState].
      destruct (at_index _ index) as [n|] eqn:E; [|done].
      apply setAdd_Forall; [|done].
      apply at_index_elem in E. rewrite Forall_forall in Hcs. by apply Hcs.
    + rewrite children_setFieldState. cbn [children with_children store].
      rewrite dropIndex_delete. case_decide; [|done]. by apply Forall_delete.
  - unfold UseList.removeAll. split.
    + cbn [namesToReuse UseList.setFieldState].
      by apply foldl_removeName_plain.
    + rewrite children_setFieldState. by cbn [children with_children].
  - intros a b st'. unfold UseList.swap.
    destruct (asStrings _) as [cs'|e] eqn:E; [|done]. intros [= <-].
    apply recyclable_children; [done|].
    apply (asStrings_Forall _ _ _ E). intros c Hc%swapChildren_elem.
    rewrite Forall_forall in Hcs. by apply Hcs.
  - intros from to st'. unfold UseList.move.
    destruct (asStrings _) as [cs'|e] eqn:E; [|done]. intros [= <-].
    apply recyclable_children; [done|].
    apply (asStrings_Forall _ _ _ E). intros c Hc%moveChildren_elem.
    rewrite Forall_forall in Hcs. by apply Hcs.
  - intros s Hs. split; [done|]. cbn [store]. by rewrite Hs.
Qed.

Lemma pool_holds_plain_ids_witness :
  recyclable "tags" addedTwice
  /\ recyclable "tags" (UseList.add "tags" "u3" addedTwice).2
  /\ recyclable "tags" (UseList.remove "tags" 0 addedTwice).
Proof.
  assert (H : recyclable "tags" addedTwice).
  { split; vm_compute; repeat constructor; discriminate. }
  split; [exact H|].
  destruct (pool_holds_plain_ids "tags" addedTwice H) as (Hadd & _ & Hrem & _).
  split; [apply Hadd; split; [discriminate|reflexivity]|apply Hrem].
Defined.

(** ** The callers that hand [add] and [remove] a string *)


